(** * ULTRA SNAKE: the game state machine and the tone synthesizer of snakev0.py

    The development follows the two classes of the program.  [SnakeGame]
    embeds the simulation ([reset], [spawn_food], [handle_input], [update] and
    the body of [run]) as functions over a record that holds the attributes of
    the Python object.  [SoundManager] embeds [_make_sound] over IEEE-754
    binary64 numbers.

    Everything the program takes from outside is an explicit argument: the
    events and the pointer position of a poll, the values handed out by
    [random.randrange], and the sine of the C library. *)

From Stdlib Require Import String.
From Stdlib Require Import ZArith List Bool Lia.
From Stdlib Require Import SpecFloat.
Import ListNotations.

Local Open Scope Z_scope.

(** ** Results of running a piece of the program *)

(** The exceptions the modelled code can raise; [sys.exit()] raises
    [SystemExit]. *)
Inductive exn : Type :=
| SystemExit
| IndexError
| MemoryError
| OverflowError
| ValueError
| ZeroDivisionError.

(** A call returns, or raises, or (for the resampling loop of [spawn_food])
    is still running when the fuel that bounds the model's loop is used up. *)
Inductive outcome (A : Type) : Type :=
| Returns (a : A)
| Raises (e : exn)
| OutOfFuel.

Arguments Returns {A} a.
Arguments Raises {A} e.
Arguments OutOfFuel {A}.

Definition bind {A B : Type} (m : outcome A) (k : A -> outcome B) : outcome B :=
  match m with
  | Returns a => k a
  | Raises e => Raises e
  | OutOfFuel => OutOfFuel
  end.

Notation "x <- m ;; k" := (bind m (fun x => k))
  (at level 61, m at next level, right associativity).

Module SnakeGame.

(** ** Data *)

Definition cell : Type := (Z * Z)%type.

Definition cell_eqb (p q : cell) : bool :=
  (fst p =? fst q) && (snd p =? snd q).

(** [pos in self.snake] *)
Definition mem (p : cell) (l : list cell) : bool := existsb (cell_eqb p) l.

(** [self.state] is one of the strings 'menu', 'playing', 'gameover'. *)
Inductive mode : Type := Menu | Playing | GameOver.

Definition mode_eqb (a b : mode) : bool :=
  match a, b with
  | Menu, Menu | Playing, Playing | GameOver, GameOver => true
  | _, _ => false
  end.

(** The two pre-generated effects handed to the mixer. *)
Inductive tone : Type := EatTone | DeathTone.

(** The keys the program tests for, and any other key. *)
Inductive key : Type :=
| K_UP | K_DOWN | K_LEFT | K_RIGHT
| K_w | K_a | K_s | K_d
| K_y | K_n | K_RETURN
| K_other.

Inductive event : Type :=
| QUIT
| KEYDOWN (k : key)
| MOUSEBUTTONDOWN
| OtherEvent.

(** The attributes of the [SnakeGame] object that the simulation reads or
    writes, followed by the two pieces of outside state it drives: how many
    values [random.randrange] has handed out, and the tones sent to the mixer
    (latest first). *)
Record game : Type := mkGame {
  state : mode;
  snake : list cell;
  direction : cell;
  next_direction : cell;
  food : cell;
  score : Z;
  game_over : bool;
  frame_count : Z;
  rand_used : nat;
  played : list tone
}.

Definition set_state (v : mode) (g : game) : game :=
  mkGame v (snake g) (direction g) (next_direction g) (food g) (score g)
         (game_over g) (frame_count g) (rand_used g) (played g).
Definition set_snake (v : list cell) (g : game) : game :=
  mkGame (state g) v (direction g) (next_direction g) (food g) (score g)
         (game_over g) (frame_count g) (rand_used g) (played g).
Definition set_direction (v : cell) (g : game) : game :=
  mkGame (state g) (snake g) v (next_direction g) (food g) (score g)
         (game_over g) (frame_count g) (rand_used g) (played g).
Definition set_next_direction (v : cell) (g : game) : game :=
  mkGame (state g) (snake g) (direction g) v (food g) (score g)
         (game_over g) (frame_count g) (rand_used g) (played g).
Definition set_food (v : cell) (g : game) : game :=
  mkGame (state g) (snake g) (direction g) (next_direction g) v (score g)
         (game_over g) (frame_count g) (rand_used g) (played g).
Definition set_score (v : Z) (g : game) : game :=
  mkGame (state g) (snake g) (direction g) (next_direction g) (food g) v
         (game_over g) (frame_count g) (rand_used g) (played g).
Definition set_game_over (v : bool) (g : game) : game :=
  mkGame (state g) (snake g) (direction g) (next_direction g) (food g) (score g)
         v (frame_count g) (rand_used g) (played g).
Definition set_frame_count (v : Z) (g : game) : game :=
  mkGame (state g) (snake g) (direction g) (next_direction g) (food g) (score g)
         (game_over g) v (rand_used g) (played g).
Definition set_rand_used (v : nat) (g : game) : game :=
  mkGame (state g) (snake g) (direction g) (next_direction g) (food g) (score g)
         (game_over g) (frame_count g) v (played g).
Definition play (t : tone) (g : game) : game :=
  mkGame (state g) (snake g) (direction g) (next_direction g) (food g) (score g)
         (game_over g) (frame_count g) (rand_used g) (t :: played g).

(** ** Game parameters, as [__init__] computes them *)

Definition fps : Z := 60.
Definition move_rate : Z := 10.
Definition frames_per_move : Z := fps / move_rate.
Definition cell_size : Z := 20.
Definition grid_width : Z := 600 / cell_size.
Definition grid_height : Z := 400 / cell_size.

(** [(-self.direction[0], -self.direction[1])] *)
Definition opposite (d : cell) : cell := (- fst d, - snd d).

Section Simulation.

(** The values [random.randrange] hands out, in order: the [k]-th call
    [randrange(n)] returns [rand k mod n], so every sequence of results the
    generator can produce is the image of some [rand]. *)
Variable rand : nat -> Z.

Definition randrange (n : Z) (k : nat) : Z := rand k mod n.

(** The pair drawn by one round of the loop of [spawn_food] when [k] values
    have been used before it. *)
Definition draw (k : nat) : cell :=
  (randrange grid_width k, randrange grid_height (S k)).

(** [spawn_food]: [while True] bounded by [fuel] rounds. *)
Fixpoint spawn_food (fuel : nat) (g : game) : outcome game :=
  match fuel with
  | O => OutOfFuel
  | S fuel' =>
      let pos := draw (rand_used g) in
      let g1 := set_rand_used (S (S (rand_used g))) g in
      if negb (mem pos (snake g1)) then Returns (set_food pos g1)
      else spawn_food fuel' g1
  end.

Definition reset (fuel : nat) (g : game) : outcome game :=
  let g := set_snake [(grid_width / 2, grid_height / 2)] g in
  let g := set_direction (1, 0) g in
  let g := set_next_direction (1, 0) g in
  g <- spawn_food fuel g ;;
  let g := set_score 0 g in
  let g := set_game_over false g in
  Returns (set_frame_count 0 g).

(** [_quit] ends in [sys.exit()]. *)
Definition _quit (g : game) : outcome game := Raises SystemExit.

(** The in-game keyboard branch of the event loop. *)
Definition key_vote (k : key) (g : game) : game :=
  match k with
  | K_UP | K_w =>
      if snd (direction g) =? 0 then set_next_direction (0, -1) g else g
  | K_DOWN | K_s =>
      if snd (direction g) =? 0 then set_next_direction (0, 1) g else g
  | K_LEFT | K_a =>
      if fst (direction g) =? 0 then set_next_direction (-1, 0) g else g
  | K_RIGHT | K_d =>
      if fst (direction g) =? 0 then set_next_direction (1, 0) g else g
  | _ => g
  end.

(** One round of [for event in pygame.event.get()]. *)
Definition handle_event (fuel : nat) (ev : event) (g : game) : outcome game :=
  g <- (match ev with QUIT => _quit g | _ => Returns g end) ;;
  g <- (match state g, ev with
        | Menu, (KEYDOWN _ | MOUSEBUTTONDOWN) => reset fuel (set_state Playing g)
        | GameOver, KEYDOWN (K_y | K_RETURN) => reset fuel (set_state Playing g)
        | GameOver, KEYDOWN K_n => _quit g
        | _, _ => Returns g
        end) ;;
  match state g, ev with
  | Playing, KEYDOWN k => Returns (key_vote k g)
  | _, _ => Returns g
  end.

Fixpoint handle_events (fuel : nat) (evs : list event) (g : game) : outcome game :=
  match evs with
  | [] => Returns g
  | ev :: evs' => g <- handle_event fuel ev g ;; handle_events fuel evs' g
  end.

(** The vote of the pointer at pixel [(mx, my)] for a snake whose head is
    [head].  [cell_size / 2] is a true division in the source; the cell size
    is even, so the pixel centre is the integer computed here. *)
Definition pointer_vote (mouse : cell) (head : cell) : cell :=
  let head_px := fst head * cell_size + cell_size / 2 in
  let head_py := snd head * cell_size + cell_size / 2 in
  let dx := fst mouse - head_px in
  let dy := snd mouse - head_py in
  if Z.abs dy <? Z.abs dx
  then ((if 0 <? dx then 1 else -1), 0)
  else (0, (if 0 <? dy then 1 else -1)).

(** The in-game mouse branch that closes [handle_input]. *)
Definition mouse_vote (mouse : cell) (g : game) : outcome game :=
  match state g with
  | Playing =>
      match snake g with
      | [] => Raises IndexError
      | head :: _ =>
          let new_dir := pointer_vote mouse head in
          if negb (cell_eqb new_dir (opposite (direction g)))
          then Returns (set_next_direction new_dir g)
          else Returns g
      end
  | _ => Returns g
  end.

(** [handle_input], given what [pygame.event.get()] and
    [pygame.mouse.get_pos()] return in this poll. *)
Definition handle_input (fuel : nat) (evs : list event) (mouse : cell) (g : game)
  : outcome game :=
  g <- handle_events fuel evs g ;;
  mouse_vote mouse g.

Definition in_grid (p : cell) : bool :=
  (0 <=? fst p) && (fst p <? grid_width) && (0 <=? snd p) && (snd p <? grid_height).

(** The cell [update] computes for the new head once the pending direction
    is adopted. *)
Definition new_head_of (head : cell) (d : cell) : cell :=
  (fst head + fst d, snd head + snd d).

Definition update (fuel : nat) (g : game) : outcome game :=
  let g := set_direction (next_direction g) g in
  match snake g with
  | [] => Raises IndexError
  | head :: _ =>
      let new_head := new_head_of head (direction g) in
      if mem new_head (snake g)
         || negb ((0 <=? fst new_head) && (fst new_head <? grid_width))
         || negb ((0 <=? snd new_head) && (snd new_head <? grid_height))
      then
        let g := play DeathTone g in
        let g := set_game_over true g in
        Returns (set_state GameOver g)
      else
        let g := set_snake (new_head :: snake g) g in
        if cell_eqb new_head (food g) then
          let g := set_score (score g + 1) g in
          let g := play EatTone g in
          spawn_food fuel g
        else
          Returns (set_snake (removelast (snake g)) g)
  end.

(** One round of the loop of [run], up to drawing.  The flag tells whether
    this frame called [update]. *)
Definition frame (fuel : nat) (evs : list event) (mouse : cell) (g : game)
  : outcome (bool * game) :=
  g <- handle_input fuel evs mouse g ;;
  if mode_eqb (state g) Playing then
    let g := set_frame_count (frame_count g + 1) g in
    if frames_per_move <=? frame_count g then
      let g := set_frame_count 0 g in
      g <- update fuel g ;;
      Returns (true, g)
    else Returns (false, g)
  else Returns (false, g).

(** The first frames of [run]: one input per frame; the result lists, frame
    by frame, the flag of [frame] and the state the frame ends in. *)
Fixpoint run (fuel : nat) (inputs : list (list event * cell)) (g : game)
  : outcome (list (bool * game)) :=
  match inputs with
  | [] => Returns []
  | (evs, mouse) :: rest =>
      r <- frame fuel evs mouse g ;;
      tr <- run fuel rest (snd r) ;;
      Returns (r :: tr)
  end.

(** Polls in a row, with no step between them. *)
Fixpoint polls (fuel : nat) (inputs : list (list event * cell)) (g : game)
  : outcome game :=
  match inputs with
  | [] => Returns g
  | (evs, mouse) :: rest => g <- handle_input fuel evs mouse g ;; polls fuel rest g
  end.

(** The object as [__init__] has it when it calls [reset]: the mode and the
    frame counter are set, the other attributes do not exist yet (the values
    given here are never read). *)
Definition blank : game := mkGame Menu [] (0, 0) (0, 0) (0, 0) 0 false 0 0 [].

Definition boot (fuel : nat) : outcome game := reset fuel blank.

(** A poll or a step, and what a list of them does. *)
Inductive action : Type :=
| Poll (evs : list event) (mouse : cell)
| Step.

Fixpoint exec (fuel : nat) (acts : list action) (g : game) : outcome game :=
  match acts with
  | [] => Returns g
  | Poll evs mouse :: rest => g <- handle_input fuel evs mouse g ;; exec fuel rest g
  | Step :: rest => g <- update fuel g ;; exec fuel rest g
  end.

(** ** Vocabulary of the statements *)

(** [update] ends the game exactly when this holds of the new head. *)
Definition collides (new_head : cell) (body : list cell) : bool :=
  mem new_head body || negb (in_grid new_head).

(** What a call of [spawn_food] leaves alone. *)
Definition only_food_moved (g g' : game) : Prop :=
  state g' = state g /\ snake g' = snake g /\ direction g' = direction g /\
  next_direction g' = next_direction g /\ score g' = score g /\
  game_over g' = game_over g /\ frame_count g' = frame_count g /\
  played g' = played g.

(** The three ways [update] leaves the object: after a collision; after the
    head moved onto the food, as [spawn_food] is entered; after a plain move. *)
Definition crashed (g : game) : game :=
  set_state GameOver
    (set_game_over true (play DeathTone (set_direction (next_direction g) g))).

Definition grown (new_head : cell) (g : game) : game :=
  play EatTone
    (set_score (score g + 1)
       (set_snake (new_head :: snake g) (set_direction (next_direction g) g))).

Definition moved (new_head : cell) (g : game) : game :=
  set_snake (removelast (new_head :: snake g))
    (set_direction (next_direction g) g).

(** The four headings. *)
Definition cardinal (d : cell) : Prop :=
  d = (1, 0) \/ d = (-1, 0) \/ d = (0, 1) \/ d = (0, -1).

(** The pending vote is a heading and does not reverse the current one. *)
Definition vote_ok (g : game) : Prop :=
  cardinal (next_direction g) /\ next_direction g <> opposite (direction g).

(** The pixel at the centre of a cell. *)
Definition pixel_centre (c : cell) : cell :=
  (fst c * cell_size + cell_size / 2, snd c * cell_size + cell_size / 2).

(** The vote of the pointer channel as the specification words it: with
    [(dx, dy)] the vector from the centre of the head to the pointer,
    [|dx| > |dy|] picks the horizontal axis, else the vertical one, and the
    sign gives the direction; at [dy = 0] on the vertical axis, where there
    is no sign, the vote is up. *)
Definition dominant_axis_vote (dx dy : Z) : cell :=
  if Z.abs dx >? Z.abs dy then (Z.sgn dx, 0)
  else if dy =? 0 then (0, -1)
  else (0, Z.sgn dy).

(** What a poll can do to mode, frame counter, heading and snake: leave all
    four alone, or restart the game from a mode other than Playing. *)
Definition poll_effect (g g' : game) : Prop :=
  (state g' = state g /\ frame_count g' = frame_count g /\
   direction g' = direction g /\ snake g' = snake g) \/
  (state g <> Playing /\ state g' = Playing /\ frame_count g' = 0).

(** The value the frame counter counts on from in the first frame of a
    run: its own while Playing, 0 otherwise, since leaving Menu or GameOver
    for Playing resets it. *)
Definition clock_start (g : game) : Z :=
  if mode_eqb (state g) Playing then frame_count g else 0.

(** No self-overlap, and at least one cell. *)
Definition well_formed (g : game) : Prop :=
  NoDup (snake g) /\ (1 <= length (snake g))%nat.

(** The states the program can be in: a call of [reset] that returns starts
    a game from any object, and polls and steps that return lead on. *)
Inductive reachable : game -> Prop :=
| reach_reset (fuel : nat) (g g' : game) :
    reset fuel g = Returns g' -> reachable g'
| reach_poll (fuel : nat) (evs : list event) (mouse : cell) (g g' : game) :
    reachable g -> handle_input fuel evs mouse g = Returns g' -> reachable g'
| reach_step (fuel : nat) (g g' : game) :
    reachable g -> update fuel g = Returns g' -> reachable g'.

End Simulation.

(** ** The program as it runs, and more vocabulary *)

(** [0, 1, ..., n - 1] *)
Definition range (n : Z) : list Z := map Z.of_nat (seq 0 (Z.to_nat n)).

(** Every cell of the grid, column by column. *)
Definition all_cells : list cell :=
  flat_map (fun x => map (fun y => (x, y)) (range grid_height)) (range grid_width).

(** One step apart along one axis. *)
Definition adjacent (p q : cell) : Prop :=
  Z.abs (fst p - fst q) + Z.abs (snd p - snd q) = 1.

(** Each cell of the list is adjacent to the next one. *)
Fixpoint chain (l : list cell) : Prop :=
  match l with
  | a :: (b :: _) as l' => adjacent a b /\ chain l'
  | _ => True
  end.

(** Events that do nothing while the menu shows, and while the game-over
    screen shows. *)
Definition idle_in_menu (ev : event) : bool :=
  match ev with OtherEvent => true | _ => false end.

Definition idle_when_over (ev : event) : bool :=
  match ev with
  | QUIT | KEYDOWN (K_y | K_RETURN | K_n) => false
  | _ => true
  end.

(** Events that leave the menu, and events that restart after a game over. *)
Definition starts (ev : event) : bool :=
  match ev with KEYDOWN _ | MOUSEBUTTONDOWN => true | _ => false end.

Definition restarts (ev : event) : bool :=
  match ev with KEYDOWN (K_y | K_RETURN) => true | _ => false end.

(** The vote a key casts on a snake that heads right, as it does after
    [reset]: the keys of the horizontal axis are refused. *)
Definition first_vote (k : key) : cell :=
  match k with
  | K_UP | K_w => (0, -1)
  | K_DOWN | K_s => (0, 1)
  | _ => (1, 0)
  end.

(** What holds of the board in every state of a game: snake and food are in
    the grid, the food is off the snake, the score counts the cells the
    snake has grown by, the snake is a chain of adjacent cells, and the
    current direction is one of the four headings. *)
Definition tidy (g : game) : Prop :=
  Forall (fun p => in_grid p = true) (snake g) /\
  in_grid (food g) = true /\
  ~ In (food g) (snake g) /\
  score g + 1 = Z.of_nat (length (snake g)) /\
  chain (snake g) /\
  cardinal (direction g).

(** [g'] is [g] with, at most, another pending vote. *)
Definition only_vote_differs (g g' : game) : Prop :=
  g' = set_next_direction (next_direction g') g.

Section Program.

Variable rand : nat -> Z.

(** The objects [run] sees between two frames: the one [__init__] leaves,
    and the ones frames lead to. *)
Inductive running : game -> Prop :=
| running_boot (fuel : nat) (g : game) :
    boot rand fuel = Returns g -> running g
| running_frame (fuel : nat) (evs : list event) (mouse : cell)
    (g : game) (r : bool * game) :
    running g -> frame rand fuel evs mouse g = Returns r -> running (snd r).

(** The round of the loop of [spawn_food] that finds the food, among the
    first [fuel] ones: the first whose draw is off [body], when [k] values
    have been used before the loop. *)
Fixpoint first_free (fuel : nat) (body : list cell) (k : nat) : option nat :=
  match fuel with
  | O => None
  | S fuel' =>
      if mem (draw rand k) body
      then option_map S (first_free fuel' body (S (S k)))
      else Some O
  end.

End Program.

(** ** Sample runs *)

(** A generator that keeps handing out 0: every draw is the cell (0, 0). *)
Definition rand0 : nat -> Z := fun _ => 0.

(** A generator whose first draw is the cell right of the start cell and
    whose later draws are (3, 3). *)
Definition rand_ahead : nat -> Z :=
  fun k => match k with O => 16 | S O => 10 | _ => 3 end.

(** Start from the menu with the up key, the pointer straight above the
    head; ten steps up to the top row; the pointer to the right and one step
    right; then the pointer straight above the head again. *)
Definition up_then_right : list action :=
  Poll [KEYDOWN K_UP] (310, 0) :: repeat Step 10
  ++ [Poll [] (600, 10); Step; Poll [] (330, 0)].

(** Where [up_then_right] ends: heading right along the top row, with a
    vote for up pending. *)
Definition top_row_turn : game :=
  mkGame Playing [(16, 0)] (1, 0) (0, -1) (0, 0) 0 false 0 4 [].

(** A game just started, the food right ahead of the head. *)
Definition food_ahead : game :=
  mkGame Playing [(15, 10)] (1, 0) (1, 0) (16, 10) 0 false 0 2 [].

(** A game just started under [rand0]. *)
Definition just_started : game :=
  mkGame Playing [(15, 10)] (1, 0) (1, 0) (0, 0) 0 false 0 2 [].

(** The object [__init__] leaves under [rand0]. *)
Definition at_menu : game :=
  mkGame Menu [(15, 10)] (1, 0) (1, 0) (0, 0) 0 false 0 2 [].

(** [food_ahead] one step later, under [rand_ahead]: the snake has eaten. *)
Definition after_meal : game :=
  mkGame Playing [(16, 10); (15, 10)] (1, 0) (1, 0) (3, 3) 1 false 0 4 [EatTone].

(** [at_menu] one frame after a click, under [rand0]. *)
Definition first_frame_done : game :=
  mkGame Playing [(15, 10)] (1, 0) (1, 0) (0, 0) 0 false 1 4 [].

(** A snake coiled in a square, its head about to turn down onto the cell
    of its tail. *)
Definition tail_chase : game :=
  mkGame Playing [(1, 0); (0, 0); (0, 1); (1, 1)] (1, 0) (0, 1) (5, 5) 3
         false 0 8 [EatTone; EatTone; EatTone].

(** A snake on every cell of the grid, and one on every cell but (0, 0),
    where the food is, its head at (0, 1) and about to go up. *)
Definition grid_full : game := set_snake all_cells blank.

Definition last_free_cell : game :=
  mkGame Playing (tl all_cells) (0, -1) (0, -1) (0, 0) 598 false 0 0 [].

(** A click on the menu and six more frames, the pointer far to the right. *)
Definition seven_frames : list (list event * cell) :=
  ([MOUSEBUTTONDOWN], (600, 210)) :: repeat ([], (600, 210)) 6.

End SnakeGame.

Module SoundManager.

(** ** Python floats: IEEE-754 binary64 *)

Definition float : Type := spec_float.

Definition prec : Z := 53.
Definition emax : Z := 1024.

Definition fmul : float -> float -> float := SFmul prec emax.
Definition fadd : float -> float -> float := SFadd prec emax.
Definition fsub : float -> float -> float := SFsub prec emax.

(** The double nearest to [m * 2^e]. *)
Definition literal (m e : Z) : float := binary_normalize prec emax m e false.

(** [0.5] and [math.pi] (0x400921FB54442D18). *)
Definition half : float := literal 1 (-1).
Definition pi : float := literal 7074237752028440 (-51).

Definition is_zero (x : float) : bool :=
  match x with S754_zero _ => true | _ => false end.

Definition is_finite (x : float) : bool :=
  match x with S754_zero _ | S754_finite _ _ _ => true | _ => false end.

(** An [int] operand of a float operation is converted first, rounding to
    nearest even; an [int] beyond the range of a double raises. *)
Definition float_of_int (z : Z) : outcome float :=
  match binary_normalize prec emax z 0 false with
  | S754_infinity _ => Raises OverflowError
  | x => Returns x
  end.

(** [x / y] on floats: a zero divisor raises. *)
Definition fdiv (x y : float) : outcome float :=
  if is_zero y then Raises ZeroDivisionError else Returns (SFdiv prec emax x y).

(** [x > 0] *)
Definition gt0 (x : float) : bool := SFltb (S754_zero false) x.

(** [x <= 0] *)
Definition le0 (x : float) : bool := SFleb x (S754_zero false).


(** The integer part and the remainder of the magnitude [m * 2^e]:
    [(q, r, d)] with [m * 2^e = q + r / d] and [0 <= r < d]. *)
Definition split_magnitude (m : positive) (e : Z) : Z * Z * Z :=
  match e with
  | Zneg p => let d := 2 ^ Zpos p in (Zpos m / d, Zpos m mod d, d)
  | _ => (Zpos m * 2 ^ e, 0, 1)
  end.

Definition signed (s : bool) (z : Z) : Z := if s then - z else z.

(** [int(x)] of a float: towards zero; NaN and the infinities raise. *)
Definition py_int (x : float) : outcome Z :=
  match x with
  | S754_nan => Raises ValueError
  | S754_infinity _ => Raises OverflowError
  | S754_zero _ => Returns 0
  | S754_finite s m e =>
      let '(q, _, _) := split_magnitude m e in Returns (signed s q)
  end.

(** [round(x)] of a float: to the nearest integer, ties to even. *)
Definition py_round (x : float) : outcome Z :=
  match x with
  | S754_nan => Raises ValueError
  | S754_infinity _ => Raises OverflowError
  | S754_zero _ => Returns 0
  | S754_finite s m e =>
      let '(q, r, d) := split_magnitude m e in
      let up :=
        match 2 * r ?= d with
        | Lt => false
        | Gt => true
        | Eq => Z.odd q
        end in
      Returns (signed s (if up then q + 1 else q))
  end.

(** [math.floor(x)] *)
Definition py_floor (x : float) : outcome Z :=
  match x with
  | S754_nan => Raises ValueError
  | S754_infinity _ => Raises OverflowError
  | S754_zero _ => Returns 0
  | S754_finite s m e =>
      let '(q, r, _) := split_magnitude m e in
      Returns (if s then (if r =? 0 then - q else - (q + 1)) else q)
  end.

(** [buf[i] = v] on an [array('h', ...)]: a signed 16-bit slot. *)
Definition store_h (v : Z) : outcome Z :=
  if (-32768 <=? v) && (v <=? 32767) then Returns v else Raises OverflowError.

(** The greatest value of the index type of the interpreter
    ([PY_SSIZE_T_MAX] of a 64-bit build). *)
Definition ssize_max : Z := 2 ^ 63 - 1.

(** [array('h', [0] * n_samples)]: the repeat count has to fit the index
    type, a count that is zero or negative gives the empty list, and a list
    of more than [PY_SSIZE_T_MAX / 8] items is refused before any memory is
    asked for.  Below that bound the allocation is taken to succeed: running
    out of memory is not modelled, here or for any other object.  The
    result is the buffer of zeros. *)
Definition allocate (n_samples : Z) : outcome (list Z) :=
  if (n_samples <? - ssize_max - 1) || (ssize_max <? n_samples)
  then Raises OverflowError
  else if ssize_max / 8 <? n_samples then Raises MemoryError
  else Returns (repeat 0 (Z.to_nat n_samples)).

(** [shape == 'square'] and [shape == 'sawtooth'] compare strings. *)
Definition is_square (shape : String.string) : bool := String.eqb shape "square"%string.
Definition is_sawtooth (shape : String.string) : bool := String.eqb shape "sawtooth"%string.

Section Synthesis.

(** The sine of the C library on the arguments it accepts; [math.sin] adds
    the domain check. *)
Variable libm_sin : float -> float.

Definition math_sin (x : float) : outcome float :=
  match x with
  | S754_infinity _ => Raises ValueError
  | _ => Returns (libm_sin x)
  end.

(** [n_samples = int(round(duration * sample_rate))] *)
Definition n_samples_of (duration : float) (sample_rate : Z) : outcome Z :=
  sr <- float_of_int sample_rate ;;
  py_round (fmul duration sr).

(** [max_amp = int(32767 * volume)] *)
Definition max_amp_of (volume : float) : outcome Z :=
  c <- float_of_int 32767 ;;
  py_int (fmul c volume).

(** [2 * math.pi * current_freq * t] *)
Definition phase (current_freq t : float) : outcome float :=
  two <- float_of_int 2 ;;
  Returns (fmul (fmul (fmul two pi) current_freq) t).

(** The body of the loop for index [i]: the value stored in [buf[i]]. *)
Definition sample (freq : Z) (duration : float) (shape : String.string)
  (decay : bool) (sample_rate max_amp i : Z) : outcome Z :=
  fi <- float_of_int i ;;
  sr <- float_of_int sample_rate ;;
  t <- fdiv fi sr ;;
  current_freq <-
    (if decay then
       q <- fdiv t duration ;;
       one <- float_of_int 1 ;;
       f <- float_of_int freq ;;
       Returns (fmul f (fsub one q))
     else float_of_int freq) ;;
  val <-
    (if is_square shape then
       x <- phase current_freq t ;;
       s <- math_sin x ;;
       Returns (if gt0 s then max_amp else - max_amp)
     else if is_sawtooth shape then
       let x := fmul t current_freq in
       k <- py_floor (fadd half x) ;;
       kf <- float_of_int k ;;
       two <- float_of_int 2 ;;
       a <- float_of_int max_amp ;;
       py_int (fmul a (fmul two (fsub x kf)))
     else
       x <- phase current_freq t ;;
       s <- math_sin x ;;
       a <- float_of_int max_amp ;;
       py_int (fmul a s)) ;;
  store_h val.

(** [for i in range(n_samples)], from index [i], [count] rounds. *)
Fixpoint fill (freq : Z) (duration : float) (shape : String.string)
  (decay : bool) (sample_rate max_amp : Z) (i : Z) (count : nat)
  : outcome (list Z) :=
  match count with
  | O => Returns []
  | S count' =>
      v <- sample freq duration shape decay sample_rate max_amp i ;;
      rest <- fill freq duration shape decay sample_rate max_amp (i + 1) count' ;;
      Returns (v :: rest)
  end.

(** [_make_sound]: the samples of the buffer handed to [pygame.mixer.Sound].
    [sample_rate] is what [pygame.mixer.get_init()[0]] returns.  The buffer
    is allocated once the count is there and before the peak is computed;
    the loop then writes each of its slots, in order, so what is returned is
    the list of the values stored. *)
Definition _make_sound (freq : Z) (duration volume : float)
  (shape : String.string) (decay : bool) (sample_rate : Z) : outcome (list Z) :=
  n_samples <- n_samples_of duration sample_rate ;;
  zeros <- allocate n_samples ;;
  max_amp <- max_amp_of volume ;;
  fill freq duration shape decay sample_rate max_amp 0 (Z.to_nat n_samples).

End Synthesis.

(** ** Vocabulary of the statements *)

(** The float [32767] of [32767 * volume]. *)
Definition amp_scale : float := literal 32767 0.

Definition zero_or_nan (x : float) : bool :=
  match x with S754_zero _ | S754_nan => true | _ => false end.

(** The sign bit, where there is one. *)
Definition sign_is (s : bool) (x : float) : Prop :=
  match x with
  | S754_zero s' | S754_infinity s' | S754_finite s' _ _ => s' = s
  | S754_nan => True
  end.

(** ** Sample arguments *)

(** The rate [__init__] opens the mixer with, and the duration (0.05) and
    the volume (0.4) of the eat effect. *)
Definition mixer_rate : Z := 44100.
Definition eat_duration : float := literal 7205759403792794 (-57).
Definition eat_volume : float := literal 7205759403792794 (-54).

(** [-2.0 ** 1023], a finite double. *)
Definition huge_negative : float := literal (-1) 1023.

(** [-1e30], a duration whose product with the rate is finite and far
    below the index range. *)
Definition minus_1e30 : float := literal (-7105427357601002) 47.

(** [-0.05], two seconds, and the odd integer [2 ** 52 + 1] as a frequency. *)
Definition minus_eat_duration : float := SFopp eat_duration.
Definition two_seconds : float := literal 2 0.
Definition odd_above_2_52 : Z := 4503599627370497.

(** A stand-in for the sine of the C library that is exact on the zeros and
    on NaN: [sin x = x] there. *)
Definition small_angle_sin (x : float) : float := x.

(** ** The sound manager, and more vocabulary *)

(** The duration (0.5) and the volume (0.5) of the death effect. *)
Definition death_duration : float := literal 1 (-1).
Definition death_volume : float := literal 1 (-1).

(** The two buffers a [SoundManager] holds. *)
Record sounds : Type := mkSounds {
  eat_sound : list Z;
  death_sound : list Z
}.

(** [__init__]: the mixer is asked for 44100 Hz, then the two effects are
    generated, the eat effect first.  [sample_rate] is the rate the mixer
    reports afterwards, which [_make_sound] reads back. *)
Definition __init__ (libm_sin : float -> float) (sample_rate : Z)
  : outcome sounds :=
  eat <- _make_sound libm_sin 1200 eat_duration eat_volume "square" false
           sample_rate ;;
  death <- _make_sound libm_sin 400 death_duration death_volume "sawtooth" true
             sample_rate ;;
  Returns (mkSounds eat death).

(** The argument the square and sine branches hand to [math.sin] at index
    [i]: the part of the loop body before the sine. *)
Definition phase_at (freq : Z) (duration : float) (decay : bool)
  (sample_rate i : Z) : outcome float :=
  fi <- float_of_int i ;;
  sr <- float_of_int sample_rate ;;
  t <- fdiv fi sr ;;
  current_freq <-
    (if decay then
       q <- fdiv t duration ;;
       one <- float_of_int 1 ;;
       f <- float_of_int freq ;;
       Returns (fmul f (fsub one q))
     else float_of_int freq) ;;
  phase current_freq t.

(** [body] returns at each of the [count] indices from [i], and [ok] holds
    of what it returns. *)
Fixpoint at_each_index {A : Type} (body : Z -> outcome A) (ok : A -> bool)
  (i : Z) (count : nat) : bool :=
  match count with
  | O => true
  | S count' =>
      match body i with
      | Returns v =>
          if ok v then at_each_index body ok (i + 1) count' else false
      | _ => false
      end
  end.

(** The floats [math.sin] accepts. *)
Definition not_infinity (x : float) : bool :=
  match x with S754_infinity _ => false | _ => true end.

(** What [round] and [int] raise on a float that is not finite. *)
Definition error_of (x : float) : exn :=
  match x with S754_nan => ValueError | _ => OverflowError end.

(** One second, and one period of a 1 Hz sawtooth at four samples a second
    and volume 0.5. *)
Definition one_second : float := literal 1 0.
Definition four_samples : list Z := [0; 8191; -16383; -8191].

End SoundManager.

(** * Properties of the game *)

Import SnakeGame.

Lemma bind_returns {A B : Type} (m : outcome A) (k : A -> outcome B) (b : B) :
  bind m k = Returns b -> exists a, m = Returns a /\ k a = Returns b.
Proof.
  destruct m as [a|e|]; simpl; intros H; try discriminate.
  exists a; split; [reflexivity | exact H].
Qed.

(** [unbind H as x Hx]: from [H : (x <- m ;; k) = Returns b] to
    [Hx : m = Returns x] and [H : k x = Returns b]. *)
Tactic Notation "unbind" hyp(H) "as" ident(x) ident(Hx) :=
  apply bind_returns in H; destruct H as [x [Hx H]].

Lemma cell_eqb_spec (p q : cell) : reflect (p = q) (cell_eqb p q).
Proof.
  destruct p as [a b], q as [c d]; unfold cell_eqb; simpl.
  destruct (Z.eqb_spec a c), (Z.eqb_spec b d); simpl; constructor; congruence.
Qed.

Lemma cell_eqb_refl (p : cell) : cell_eqb p p = true.
Proof. destruct (cell_eqb_spec p p); congruence. Qed.

Lemma mem_spec (p : cell) (l : list cell) : mem p l = true <-> In p l.
Proof.
  unfold mem; rewrite existsb_exists; split.
  - intros [q [Hq He]]. destruct (cell_eqb_spec p q); [subst; exact Hq | discriminate].
  - intros H; exists p; split; [exact H | apply cell_eqb_refl].
Qed.

Lemma mem_false (p : cell) (l : list cell) : mem p l = false <-> ~ In p l.
Proof.
  rewrite <- mem_spec. destruct (mem p l); split; congruence.
Qed.

Lemma mode_eqb_spec (a b : mode) : reflect (a = b) (mode_eqb a b).
Proof. destruct a, b; simpl; constructor; congruence. Qed.

(** The test of [update] for a wall is the complement of [in_grid]. *)
Lemma wall_test (p : cell) :
  negb ((0 <=? fst p) && (fst p <? grid_width))
  || negb ((0 <=? snd p) && (snd p <? grid_height)) = negb (in_grid p).
Proof.
  unfold in_grid.
  destruct (0 <=? fst p), (fst p <? grid_width), (0 <=? snd p),
    (snd p <? grid_height); reflexivity.
Qed.

Lemma collides_test (p : cell) (l : list cell) :
  mem p l
  || negb ((0 <=? fst p) && (fst p <? grid_width))
  || negb ((0 <=? snd p) && (snd p <? grid_height)) = collides p l.
Proof.
  unfold collides. rewrite <- orb_assoc, wall_test. reflexivity.
Qed.

Lemma collides_false (p : cell) (l : list cell) :
  collides p l = false <-> in_grid p = true /\ ~ In p l.
Proof.
  unfold collides. rewrite orb_false_iff, negb_false_iff, mem_false. tauto.
Qed.

Lemma collides_true (p : cell) (l : list cell) :
  collides p l = true <-> in_grid p = false \/ In p l.
Proof.
  unfold collides. rewrite orb_true_iff, negb_true_iff, mem_spec. tauto.
Qed.

(** Lists: what [insert(0, x)] followed by [pop()] does. *)
Lemma removelast_length {A : Type} (l : list A) :
  l <> [] -> S (length (removelast l)) = length l.
Proof.
  induction l as [|a l IH]; [congruence|]. intros _.
  destruct l as [|b l]; [reflexivity|].
  change (S (S (length (removelast (b :: l)))) = S (length (b :: l))).
  rewrite IH; [reflexivity | discriminate].
Qed.

Lemma removelast_incl {A : Type} (l : list A) (x : A) :
  In x (removelast l) -> In x l.
Proof.
  induction l as [|a l IH]; [intros []|].
  destruct l as [|b l]; [intros []|].
  change (In x (a :: removelast (b :: l)) -> In x (a :: b :: l)).
  intros [H|H]; [left; exact H | right; apply IH; exact H].
Qed.

Lemma removelast_NoDup {A : Type} (l : list A) :
  NoDup l -> NoDup (removelast l).
Proof.
  induction l as [|a l IH]; [intros _; constructor|].
  destruct l as [|b l]; [intros _; constructor|].
  change (NoDup (a :: b :: l) -> NoDup (a :: removelast (b :: l))).
  intros H. inversion H as [|? ? Hin Hnd]; subst.
  constructor; [intros Hc; apply Hin, removelast_incl, Hc | apply IH, Hnd].
Qed.

Section GameFacts.

Variable rand : nat -> Z.

(** *** [spawn_food] *)

Lemma spawn_food_S (fuel : nat) (g : game) :
  spawn_food rand (S fuel) g =
  if negb (mem (draw rand (rand_used g)) (snake g))
  then Returns (set_food (draw rand (rand_used g))
                  (set_rand_used (S (S (rand_used g))) g))
  else spawn_food rand fuel (set_rand_used (S (S (rand_used g))) g).
Proof. reflexivity. Qed.

Lemma spawn_food_returns (fuel : nat) :
  forall g g', spawn_food rand fuel g = Returns g' ->
    only_food_moved g g' /\ ~ In (food g') (snake g').
Proof.
  induction fuel as [|fuel IH]; intros g g' H; simpl in H; [discriminate|].
  destruct (mem (draw rand (rand_used g)) (snake g)) eqn:Hm; simpl in H.
  - apply IH in H. destruct H as [Hs Hf]. split; [|exact Hf].
    unfold only_food_moved in *; simpl in Hs. exact Hs.
  - injection H as <-. split.
    + unfold only_food_moved; simpl; repeat split.
    + simpl. apply mem_false, Hm.
Qed.

(** The loop returns once a round draws a free cell: if the draw of round
    [j] is free, [j + 1] rounds are enough. *)
Lemma spawn_food_finds (j : nat) :
  forall g, ~ In (draw rand (rand_used g + 2 * j)) (snake g) ->
    exists g', spawn_food rand (S j) g = Returns g'.
Proof.
  induction j as [|j IH]; intros g Hfree; simpl.
  - replace (rand_used g + 2 * 0)%nat with (rand_used g) in Hfree by lia.
    apply mem_false in Hfree. rewrite Hfree. simpl. eauto.
  - destruct (mem (draw rand (rand_used g)) (snake g)) eqn:Hm; simpl; [|eauto].
    apply (IH (set_rand_used (S (S (rand_used g))) g)).
    unfold set_rand_used; cbn [rand_used snake].
    replace (S (S (rand_used g)) + 2 * j)%nat with (rand_used g + 2 * S j)%nat by lia.
    exact Hfree.
Qed.

(** More fuel does not change a result. *)
Lemma spawn_food_more_fuel (fuel : nat) :
  forall g g', spawn_food rand fuel g = Returns g' ->
    spawn_food rand (S fuel) g = Returns g'.
Proof.
  induction fuel as [|fuel IH]; intros g g' H; [discriminate|].
  rewrite spawn_food_S in H. rewrite spawn_food_S.
  destruct (negb (mem (draw rand (rand_used g)) (snake g))).
  - exact H.
  - apply IH, H.
Qed.

(** *** [reset] *)

Lemma reset_returns (fuel : nat) (g g' : game) :
  reset rand fuel g = Returns g' ->
  snake g' = [(grid_width / 2, grid_height / 2)] /\
  direction g' = (1, 0) /\ next_direction g' = (1, 0) /\
  score g' = 0 /\ game_over g' = false /\ frame_count g' = 0 /\
  state g' = state g /\ played g' = played g /\
  ~ In (food g') (snake g').
Proof.
  unfold reset. intros H. apply bind_returns in H. destruct H as [g1 [H1 H2]].
  injection H2 as <-. apply spawn_food_returns in H1.
  destruct H1 as [(Hst & Hsn & Hd & Hn & Hsc & Hgo & Hfc & Hpl) Hfood].
  cbn [snake direction next_direction score game_over frame_count state played
       food set_score set_game_over set_frame_count set_snake set_direction
       set_next_direction] in *.
  repeat split; try assumption; reflexivity.
Qed.

Lemma reset_finds (j : nat) (g : game) :
  ~ In (draw rand (rand_used g + 2 * j)) [(grid_width / 2, grid_height / 2)] ->
  exists g', reset rand (S j) g = Returns g'.
Proof.
  intros Hfree. unfold reset.
  destruct (spawn_food_finds j
    (set_next_direction (1, 0) (set_direction (1, 0)
       (set_snake [(grid_width / 2, grid_height / 2)] g)))) as [g1 H1].
  - exact Hfree.
  - rewrite H1. simpl. eauto.
Qed.

(** *** [update] *)

Lemma update_cases (fuel : nat) (g : game) (head : cell) (tl : list cell) :
  snake g = head :: tl ->
  update rand fuel g =
  let new_head := new_head_of head (next_direction g) in
  if collides new_head (snake g) then Returns (crashed g)
  else if cell_eqb new_head (food g) then spawn_food rand fuel (grown new_head g)
  else Returns (moved new_head g).
Proof.
  intros Hs. unfold update, crashed, grown, moved.
  cbn [snake set_direction direction food].
  rewrite Hs. rewrite collides_test. reflexivity.
Qed.

Lemma update_empty (fuel : nat) (g : game) :
  snake g = [] -> update rand fuel g = Raises IndexError.
Proof. intros Hs. unfold update. cbn [snake set_direction]. rewrite Hs. reflexivity. Qed.

(** *** Collisions *)

(** C2, as amended.  When the new head is outside the grid or on the
    snake, [update] returns the object it was given with exactly these
    changes: the mode is GameOver and the [game_over] flag is set, the
    current direction is the pending one (adopted before the collision
    test), and the death tone has gone to the mixer.  Snake, food, score,
    pending direction, frame counter and the random generator are as before:
    the move is not applied. *)
Theorem update_collision_ends_game
  (fuel : nat) (g : game) (head : cell) (tl : list cell) :
  snake g = head :: tl ->
  in_grid (new_head_of head (next_direction g)) = false \/
    In (new_head_of head (next_direction g)) (snake g) ->
  update rand fuel g = Returns (crashed g) /\
  state (crashed g) = GameOver /\
  game_over (crashed g) = true /\
  direction (crashed g) = next_direction g /\
  played (crashed g) = DeathTone :: played g /\
  snake (crashed g) = snake g /\
  food (crashed g) = food g /\
  score (crashed g) = score g /\
  next_direction (crashed g) = next_direction g /\
  frame_count (crashed g) = frame_count g /\
  rand_used (crashed g) = rand_used g.
Proof.
  intros Hs Hc. rewrite (update_cases fuel g head tl Hs). cbv zeta.
  apply collides_true in Hc. rewrite Hc.
  repeat split.
Qed.

(** *** Growth *)

(** C3.  When the new head is in the grid and off the snake: if it is the
    food cell, every call of [update] that returns has made the snake one
    cell longer and the score one higher, and the call returns as soon as a
    round of the food loop draws a free cell; if it is not the food cell,
    [update] returns and leaves length and score as they were. *)
Theorem update_growth (g : game) (head : cell) (tl : list cell) :
  snake g = head :: tl ->
  in_grid (new_head_of head (next_direction g)) = true ->
  ~ In (new_head_of head (next_direction g)) (snake g) ->
  (new_head_of head (next_direction g) = food g ->
     (forall fuel g', update rand fuel g = Returns g' ->
        length (snake g') = S (length (snake g)) /\ score g' = score g + 1) /\
     (forall j,
        ~ In (draw rand (rand_used g + 2 * j))
             (new_head_of head (next_direction g) :: snake g) ->
        exists g', update rand (S j) g = Returns g')) /\
  (new_head_of head (next_direction g) <> food g ->
     forall fuel, exists g', update rand fuel g = Returns g' /\
        length (snake g') = length (snake g) /\ score g' = score g).
Proof.
  intros Hs Hin Hoff.
  assert (Hc : collides (new_head_of head (next_direction g)) (snake g) = false)
    by (apply collides_false; split; assumption).
  split.
  - intros Heat. split.
    + intros fuel g' H. rewrite (update_cases fuel g head tl Hs) in H.
      cbv zeta in H. rewrite Hc, Heat, cell_eqb_refl in H.
      apply spawn_food_returns in H.
      destruct H as [(_ & Hsn & _ & _ & Hsc & _) _].
      rewrite Hsn, Hsc. rewrite <- Heat. split; reflexivity.
    + intros j Hfree. rewrite (update_cases (S j) g head tl Hs).
      cbv zeta. rewrite Hc, Heat, cell_eqb_refl.
      apply spawn_food_finds. rewrite <- Heat. exact Hfree.
  - intros Hne fuel. rewrite (update_cases fuel g head tl Hs). cbv zeta.
    rewrite Hc.
    destruct (cell_eqb_spec (new_head_of head (next_direction g)) (food g))
      as [He|_]; [contradiction|].
    eexists; split; [reflexivity|]. split; [|reflexivity].
    unfold moved; cbn [snake set_snake]. rewrite Hs.
    assert (Hl := removelast_length
      (new_head_of head (next_direction g) :: head :: tl) ltac:(discriminate)).
    cbn [length] in *. lia.
Qed.

(** *** Well-formed snakes *)

Lemma reset_well_formed (fuel : nat) (g g' : game) :
  reset rand fuel g = Returns g' -> well_formed g'.
Proof.
  intros H. apply reset_returns in H. destruct H as (Hs & _).
  unfold well_formed. rewrite Hs. split; [|simpl; lia].
  constructor; [intros [] | constructor].
Qed.

Lemma update_well_formed (fuel : nat) (g g' : game) :
  well_formed g -> update rand fuel g = Returns g' -> well_formed g'.
Proof.
  intros [Hnd Hlen] H.
  destruct (snake g) as [|head tl] eqn:Hs; [simpl in Hlen; lia|].
  rewrite (update_cases fuel g head tl Hs) in H. cbv zeta in H.
  destruct (collides _ _) eqn:Hc.
  - injection H as <-. unfold well_formed, crashed; cbn [snake set_state
      set_game_over play set_direction]. rewrite Hs. split; assumption.
  - apply collides_false in Hc. destruct Hc as [_ Hoff].
    destruct (cell_eqb _ _).
    + apply spawn_food_returns in H. destruct H as [(_ & Hsn & _) _].
      unfold well_formed. rewrite Hsn. unfold grown; cbn [snake set_snake
        set_score play set_direction]. rewrite Hs. split.
      * constructor; [rewrite <- Hs; exact Hoff | exact Hnd].
      * simpl; lia.
    + injection H as <-. unfold well_formed, moved; cbn [snake set_snake].
      rewrite Hs. split.
      * apply removelast_NoDup. constructor; [rewrite <- Hs; exact Hoff | exact Hnd].
      * assert (Hl := removelast_length
          (new_head_of head (next_direction g) :: head :: tl) ltac:(discriminate)).
        cbn [length] in *. lia.
Qed.

(** *** Polls *)

Lemma key_vote_fields (k : key) (g : game) :
  state (key_vote k g) = state g /\ snake (key_vote k g) = snake g /\
  direction (key_vote k g) = direction g /\ food (key_vote k g) = food g /\
  score (key_vote k g) = score g /\ frame_count (key_vote k g) = frame_count g.
Proof.
  destruct k; unfold key_vote;
    repeat match goal with |- context [if ?b then _ else _] => destruct b end;
    repeat split.
Qed.

Lemma key_vote_ok (k : key) (g : game) : vote_ok g -> vote_ok (key_vote k g).
Proof.
  unfold vote_ok. intros [Hc Hn].
  destruct k; unfold key_vote; try (split; assumption);
    match goal with
    | |- context [?a =? 0] => destruct (Z.eqb_spec a 0) as [He|He]
    end;
    try (split; assumption);
    (split; cbn [next_direction set_next_direction direction];
     [unfold cardinal; tauto
     | unfold opposite; intros Hx; injection Hx as H1 H2; lia]).
Qed.

(** What one event does: it may restart the game, which needs a mode other
    than Playing, and it may then cast a key vote, which needs Playing. *)
Lemma handle_event_cases (fuel : nat) (ev : event) (g g' : game) :
  handle_event rand fuel ev g = Returns g' ->
  exists g1,
    (g1 = g \/
     (state g <> Playing /\ reset rand fuel (set_state Playing g) = Returns g1)) /\
    (g' = g1 \/ exists k, state g1 = Playing /\ g' = key_vote k g1).
Proof.
  unfold handle_event. intros H.
  unbind H as g0 H0.
  assert (g0 = g) as -> by (destruct ev; unfold _quit in H0; congruence). clear H0.
  unbind H as g1 H1.
  exists g1. split.
  - destruct (state g) eqn:Hst; destruct ev as [|k| |];
      try destruct k; unfold _quit in H1;
      try (left; congruence); try discriminate;
      right; split; congruence.
  - destruct (state g1) eqn:Hst1; destruct ev as [|k| |];
      try (left; congruence).
    right. exists k. split; [reflexivity | congruence].
Qed.

Lemma reset_playing (fuel : nat) (g g1 : game) :
  reset rand fuel (set_state Playing g) = Returns g1 ->
  state g1 = Playing /\ frame_count g1 = 0 /\ direction g1 = (1, 0) /\
  next_direction g1 = (1, 0).
Proof.
  intros H. apply reset_returns in H.
  destruct H as (_ & Hd & Hn & _ & _ & Hf & Hst & _). auto.
Qed.

Section PollInvariant.

(** A property that every restart establishes and that votes preserve
    holds after a poll. *)
Variable P : game -> Prop.
Hypothesis P_reset : forall fuel g g', reset rand fuel g = Returns g' -> P g'.
Hypothesis P_key : forall k g, P g -> P (key_vote k g).
Hypothesis P_mouse : forall d g,
  P g -> cardinal d -> d <> opposite (direction g) -> P (set_next_direction d g).

Lemma handle_events_inv (fuel : nat) (evs : list event) :
  forall g g', P g -> handle_events rand fuel evs g = Returns g' -> P g'.
Proof.
  induction evs as [|ev evs IH]; intros g g' HP H; simpl in H.
  - congruence.
  - unbind H as g1 H1.
    apply (IH g1 g'); [|exact H].
    apply handle_event_cases in H1. destruct H1 as [g0 [Hr Hk]].
    assert (P g0) by (destruct Hr as [->|[_ Hr]]; [exact HP | eapply P_reset, Hr]).
    destruct Hk as [->|[k [_ ->]]]; [assumption | apply P_key; assumption].
Qed.

End PollInvariant.

Lemma pointer_vote_cardinal (mouse head : cell) : cardinal (pointer_vote mouse head).
Proof.
  unfold pointer_vote, cardinal.
  repeat match goal with |- context [if ?b then _ else _] => destruct b end; tauto.
Qed.

Lemma mouse_vote_cases (mouse : cell) (g g' : game) :
  mouse_vote mouse g = Returns g' ->
  (state g <> Playing /\ g' = g) \/
  (exists head tl, state g = Playing /\ snake g = head :: tl /\
     ((pointer_vote mouse head <> opposite (direction g) /\
       g' = set_next_direction (pointer_vote mouse head) g) \/
      (pointer_vote mouse head = opposite (direction g) /\ g' = g))).
Proof.
  unfold mouse_vote. intros H.
  destruct (state g) eqn:Hst; try (left; split; congruence).
  right. destruct (snake g) as [|head tl] eqn:Hs; [discriminate|].
  exists head, tl. split; [reflexivity|]. split; [reflexivity|].
  destruct (cell_eqb_spec (pointer_vote mouse head) (opposite (direction g)))
    as [He|Hne]; simpl in H; injection H as <-; [right | left]; split; auto.
Qed.

Lemma handle_input_inv (P : game -> Prop) :
  (forall fuel g g', reset rand fuel g = Returns g' -> P g') ->
  (forall k g, P g -> P (key_vote k g)) ->
  (forall d g, P g -> cardinal d -> d <> opposite (direction g) ->
     P (set_next_direction d g)) ->
  forall fuel evs mouse g g',
    P g -> handle_input rand fuel evs mouse g = Returns g' -> P g'.
Proof.
  intros Hr Hk Hm fuel evs mouse g g' HP H. unfold handle_input in H.
  unbind H as g1 H1.
  assert (P g1) by (eapply handle_events_inv; eassumption).
  apply mouse_vote_cases in H.
  destruct H as [[_ ->]|(head & tl & _ & _ & [[Hne ->]|[_ ->]])]; try assumption.
  apply Hm; [assumption | apply pointer_vote_cardinal | exact Hne].
Qed.

Lemma handle_events_track (fuel : nat) (g : game) (evs : list event) :
  forall gx gx', poll_effect g gx ->
    handle_events rand fuel evs gx = Returns gx' -> poll_effect g gx'.
Proof.
  induction evs as [|ev evs IH]; intros gx gx' HQ H; simpl in H.
  - congruence.
  - unbind H as g2 H2.
    apply (IH g2 gx'); [|exact H].
    apply handle_event_cases in H2. destruct H2 as [g1 [Hr Hk]].
    assert (HQ1 : poll_effect g g1).
    { destruct Hr as [->|[Hnp Hr]]; [exact HQ|].
      apply reset_playing in Hr. destruct Hr as (Hst & Hfc & _).
      right. destruct HQ as [(Hs & _)|(_ & Hs & _)]; [|congruence].
      repeat split; congruence. }
    destruct Hk as [->|[k [_ ->]]]; [exact HQ1|].
    destruct (key_vote_fields k g1) as (Hst & Hsn & Hd & _ & _ & Hfc).
    unfold poll_effect. rewrite Hst, Hsn, Hd, Hfc. exact HQ1.
Qed.

Lemma handle_input_track (fuel : nat) (evs : list event) (mouse : cell)
  (g g' : game) :
  handle_input rand fuel evs mouse g = Returns g' -> poll_effect g g'.
Proof.
  unfold handle_input. intros H.
  unbind H as g1 H1.
  assert (HQ : poll_effect g g1).
  { apply (handle_events_track fuel g evs g g1); [|exact H1].
    left. repeat split. }
  apply mouse_vote_cases in H.
  destruct H as [[_ ->]|(head & tl & _ & _ & [[_ ->]|[_ ->]])]; exact HQ.
Qed.

Lemma handle_input_playing (fuel : nat) (evs : list event) (mouse : cell)
  (g g' : game) :
  state g = Playing -> handle_input rand fuel evs mouse g = Returns g' ->
  state g' = Playing /\ frame_count g' = frame_count g /\
  direction g' = direction g /\ snake g' = snake g.
Proof.
  intros Hp H. apply handle_input_track in H.
  destruct H as [(Hs & Hf & Hd & Hsn)|(Hnp & _)]; [|contradiction].
  repeat split; congruence.
Qed.

Lemma polls_playing (fuel : nat) (inputs : list (list event * cell)) :
  forall g g', state g = Playing -> polls rand fuel inputs g = Returns g' ->
    state g' = Playing /\ direction g' = direction g.
Proof.
  induction inputs as [|[evs mouse] rest IH]; intros g g' Hp H; simpl in H.
  - injection H as <-. auto.
  - unbind H as g1 H1.
    apply (handle_input_playing _ _ _ _ _ Hp) in H1.
    destruct H1 as (Hp1 & _ & Hd1 & _).
    destruct (IH g1 g' Hp1 H) as [Hp' Hd']. split; congruence.
Qed.

Lemma polls_reachable (fuel : nat) (inputs : list (list event * cell)) :
  forall g g', reachable rand g -> polls rand fuel inputs g = Returns g' ->
    reachable rand g'.
Proof.
  induction inputs as [|[evs mouse] rest IH]; intros g g' Hr H; simpl in H.
  - injection H as <-. exact Hr.
  - unbind H as g1 H1.
    apply (IH g1 g'); [|exact H]. eapply reach_poll; eassumption.
Qed.

Lemma exec_reachable (fuel : nat) (acts : list action) :
  forall g g', reachable rand g -> exec rand fuel acts g = Returns g' ->
    reachable rand g'.
Proof.
  induction acts as [|[evs mouse|] rest IH]; intros g g' Hr H; simpl in H.
  - injection H as <-. exact Hr.
  - unbind H as g1 H1.
    apply (IH g1 g'); [|exact H]. eapply reach_poll; eassumption.
  - unbind H as g1 H1.
    apply (IH g1 g'); [|exact H]. eapply reach_step; eassumption.
Qed.

(** *** Headings *)

Lemma cardinal_not_self_opposite (d : cell) : cardinal d -> d <> opposite d.
Proof.
  unfold cardinal, opposite.
  intros [-> | [-> | [-> | ->]]]; cbn [fst snd]; intros H; injection H; lia.
Qed.

Lemma update_headings (fuel : nat) (g g' : game) :
  update rand fuel g = Returns g' ->
  direction g' = next_direction g /\ next_direction g' = next_direction g.
Proof.
  intros H. destruct (snake g) as [|head tl] eqn:Hs.
  - rewrite (update_empty fuel g Hs) in H. discriminate.
  - rewrite (update_cases fuel g head tl Hs) in H. cbv zeta in H.
    destruct (collides _ _).
    + injection H as <-. split; reflexivity.
    + destruct (cell_eqb _ _).
      * apply spawn_food_returns in H.
        destruct H as [(_ & _ & Hd & Hn & _) _]. rewrite Hd, Hn. split; reflexivity.
      * injection H as <-. split; reflexivity.
Qed.

Lemma reachable_vote_ok (g : game) : reachable rand g -> vote_ok g.
Proof.
  induction 1 as [fuel g g' H | fuel evs mouse g g' _ IH H | fuel g g' _ IH H].
  - apply reset_returns in H. destruct H as (_ & Hd & Hn & _).
    unfold vote_ok, cardinal, opposite. rewrite Hd, Hn. cbn [fst snd].
    split; [tauto | intros Hx; injection Hx; lia].
  - revert IH H. apply handle_input_inv.
    + clear. intros fuel g g' H. apply reset_returns in H.
      destruct H as (_ & Hd & Hn & _).
      unfold vote_ok, cardinal, opposite. rewrite Hd, Hn. cbn [fst snd].
      split; [tauto | intros Hx; injection Hx; lia].
    + intros k g0. apply key_vote_ok.
    + intros d g0 _ Hc Hne. split; [exact Hc | exact Hne].
  - apply update_headings in H. destruct H as [Hd Hn].
    destruct IH as [Hc _]. unfold vote_ok. rewrite Hd, Hn.
    split; [exact Hc | apply cardinal_not_self_opposite, Hc].
Qed.

(** C1.  In every state the program can reach from [reset] by polls and
    steps, the pending vote is a heading other than the reverse of the
    current direction, and it stays so after a key vote and after a pointer
    vote; [update] adopts exactly the pending vote; so the direction a step
    adopts is never the reverse of the one the step before it adopted,
    whatever polls of the running game lie between the two. *)
Theorem no_reversal_takes_effect :
  (forall g, reachable rand g ->
     cardinal (next_direction g) /\ next_direction g <> opposite (direction g)) /\
  (forall g k, reachable rand g ->
     next_direction (key_vote k g) <> opposite (direction g)) /\
  (forall g mouse g', reachable rand g -> mouse_vote mouse g = Returns g' ->
     next_direction g' <> opposite (direction g)) /\
  (forall g fuel g', reachable rand g -> update rand fuel g = Returns g' ->
     direction g' = next_direction g /\ direction g' <> opposite (direction g)) /\
  (forall g0 fuel0 g1 fuel inputs g2 fuel2 g3,
     reachable rand g0 -> update rand fuel0 g0 = Returns g1 ->
     state g1 = Playing ->
     polls rand fuel inputs g1 = Returns g2 ->
     update rand fuel2 g2 = Returns g3 ->
     direction g3 <> opposite (direction g1)).
Proof.
  split; [|split; [|split; [|split]]].
  - intros g Hr. exact (reachable_vote_ok g Hr).
  - intros g k Hr.
    destruct (key_vote_ok k g (reachable_vote_ok g Hr)) as [_ Hn].
    destruct (key_vote_fields k g) as (_ & _ & Hd & _). rewrite <- Hd. exact Hn.
  - intros g mouse g' Hr H.
    destruct (reachable_vote_ok g Hr) as [_ Hn].
    apply mouse_vote_cases in H.
    destruct H as [[_ ->]|(head & tl & _ & _ & [[Hne ->]|[_ ->]])];
      [exact Hn | exact Hne | exact Hn].
  - intros g fuel g' Hr H. apply update_headings in H. destruct H as [Hd _].
    destruct (reachable_vote_ok g Hr) as [_ Hn]. rewrite Hd. auto.
  - intros g0 fuel0 g1 fuel inputs g2 fuel2 g3 Hr H1 Hp Hpolls H3.
    assert (Hr2 : reachable rand g2).
    { eapply polls_reachable; [|exact Hpolls]. eapply reach_step; eassumption. }
    destruct (polls_playing _ _ _ _ Hp Hpolls) as [_ Hd].
    apply update_headings in H3. destruct H3 as [Hd3 _].
    destruct (reachable_vote_ok g2 Hr2) as [_ Hn]. rewrite Hd3, <- Hd. exact Hn.
Qed.

(** C4.  Every state reachable from [reset] has a snake of pairwise
    distinct cells with at least one cell; [reset] establishes this and
    [update] preserves it. *)
Theorem snake_well_formed :
  (forall g, reachable rand g -> well_formed g) /\
  (forall fuel g g', reset rand fuel g = Returns g' -> well_formed g') /\
  (forall fuel g g', well_formed g -> update rand fuel g = Returns g' ->
     well_formed g').
Proof.
  split; [|split].
  - induction 1 as [fuel g g' H | fuel evs mouse g g' _ IH H | fuel g g' _ IH H].
    + eapply reset_well_formed, H.
    + revert IH H. apply handle_input_inv.
      * apply reset_well_formed.
      * intros k g0. unfold well_formed.
        destruct (key_vote_fields k g0) as [_ [Hsn _]]. rewrite Hsn. auto.
      * intros d g0 Hw _ _. exact Hw.
    + eapply update_well_formed; eassumption.
  - apply reset_well_formed.
  - apply update_well_formed.
Qed.

(** *** Food *)

Lemma draw_in_grid (k : nat) : in_grid (draw rand k) = true.
Proof.
  unfold in_grid, draw, randrange. cbn [fst snd].
  assert (0 < grid_width) by reflexivity.
  assert (0 < grid_height) by reflexivity.
  pose proof (Z.mod_pos_bound (rand k) grid_width ltac:(assumption)).
  pose proof (Z.mod_pos_bound (rand (S k)) grid_height ltac:(assumption)).
  repeat (apply andb_true_intro; split);
    first [apply Z.leb_le | apply Z.ltb_lt]; lia.
Qed.

(** C5.  Whenever [reset] returns, and whenever a step that moves the head
    onto the food returns, the food is on no cell of the snake; and both do
    return provided some round of the food loop draws a cell off the snake
    (a cell of the grid, since every draw is one), which takes a grid with a
    free cell. *)
Theorem food_placed_off_snake :
  (forall k, in_grid (draw rand k) = true) /\
  (forall fuel g g', reset rand fuel g = Returns g' ->
     ~ In (food g') (snake g')) /\
  (forall j g,
     ~ In (draw rand (rand_used g + 2 * j)) [(grid_width / 2, grid_height / 2)] ->
     exists g', reset rand (S j) g = Returns g' /\ ~ In (food g') (snake g')) /\
  (forall fuel g head tl g',
     snake g = head :: tl ->
     collides (new_head_of head (next_direction g)) (snake g) = false ->
     new_head_of head (next_direction g) = food g ->
     update rand fuel g = Returns g' ->
     snake g' = food g :: snake g /\ ~ In (food g') (snake g')) /\
  (forall j g head tl,
     snake g = head :: tl ->
     collides (new_head_of head (next_direction g)) (snake g) = false ->
     new_head_of head (next_direction g) = food g ->
     ~ In (draw rand (rand_used g + 2 * j)) (food g :: snake g) ->
     exists g', update rand (S j) g = Returns g' /\ ~ In (food g') (snake g')).
Proof.
  assert (Heat : forall fuel g head tl g',
     snake g = head :: tl ->
     collides (new_head_of head (next_direction g)) (snake g) = false ->
     new_head_of head (next_direction g) = food g ->
     update rand fuel g = Returns g' ->
     snake g' = food g :: snake g /\ ~ In (food g') (snake g')).
  { intros fuel g head tl g' Hs Hc He H.
    rewrite (update_cases fuel g head tl Hs) in H. cbv zeta in H.
    rewrite Hc, He, cell_eqb_refl in H.
    apply spawn_food_returns in H. destruct H as [(_ & Hsn & _) Hf].
    split; [exact Hsn | exact Hf]. }
  split; [exact draw_in_grid|]. split; [|split; [|split]].
  - intros fuel g g' H. apply reset_returns in H. apply H.
  - intros j g Hfree. destruct (reset_finds j g Hfree) as [g' H].
    exists g'. split; [exact H|]. apply reset_returns in H. apply H.
  - exact Heat.
  - intros j g head tl Hs Hc He Hfree.
    assert (Hex : exists g', update rand (S j) g = Returns g').
    { rewrite (update_cases (S j) g head tl Hs). cbv zeta.
      rewrite Hc, He, cell_eqb_refl. apply spawn_food_finds. exact Hfree. }
    destruct Hex as [g' H]. exists g'. split; [exact H|].
    eapply Heat; eassumption.
Qed.

(** *** The pointer *)

(** The vote the code computes is the dominant-axis vote of the
    specification, taken on the vector from the pixel centre of the head to
    the pointer. *)
Lemma pointer_vote_dominant_axis (mouse head : cell) :
  pointer_vote mouse head =
  dominant_axis_vote (fst mouse - fst (pixel_centre head))
                     (snd mouse - snd (pixel_centre head)).
Proof.
  unfold pointer_vote, dominant_axis_vote, pixel_centre. cbn [fst snd]. cbv zeta.
  set (dx := fst mouse - _). set (dy := snd mouse - _).
  rewrite Z.gtb_ltb.
  destruct (Z.ltb_spec (Z.abs dy) (Z.abs dx)) as [Hh|Hv].
  - destruct (Z.ltb_spec 0 dx) as [Hp|Hn].
    + rewrite Z.sgn_pos by exact Hp. reflexivity.
    + rewrite Z.sgn_neg by lia. reflexivity.
  - destruct (Z.eqb_spec dy 0) as [Hz|Hnz].
    + rewrite Hz. reflexivity.
    + destruct (Z.ltb_spec 0 dy) as [Hp|Hn].
      * rewrite Z.sgn_pos by exact Hp. reflexivity.
      * rewrite Z.sgn_neg by lia. reflexivity.
Qed.

(** C10.  After every poll that leaves the game in Playing mode the pointer
    has voted: its vote is the dominant-axis vote on the vector [(dx, dy)]
    from the pixel centre of the head to the pointer (right for
    [|dx| > |dy|] and [dx > 0], left for [|dx| > |dy|] and [dx < 0], else
    down for [dy > 0] and up for [dy <= 0]), so one of the four headings
    whatever the position; the pending direction is that vote unless the
    vote is the reverse of the current direction (so a key vote of the same
    poll is overwritten), a reverse vote leaves the object as the events
    left it, and a pointer exactly on the pixel centre of the head votes
    up. *)
Theorem pointer_votes_every_poll
  (fuel : nat) (evs : list event) (mouse : cell) (g g' : game) :
  handle_input rand fuel evs mouse g = Returns g' ->
  state g' = Playing ->
  exists g1 head tl,
    handle_events rand fuel evs g = Returns g1 /\
    snake g' = head :: tl /\
    pointer_vote mouse head =
      dominant_axis_vote (fst mouse - fst (pixel_centre head))
                         (snd mouse - snd (pixel_centre head)) /\
    (let dx := fst mouse - fst (pixel_centre head) in
     let dy := snd mouse - snd (pixel_centre head) in
     (Z.abs dy < Z.abs dx -> 0 < dx -> pointer_vote mouse head = (1, 0)) /\
     (Z.abs dy < Z.abs dx -> dx < 0 -> pointer_vote mouse head = (-1, 0)) /\
     (Z.abs dx <= Z.abs dy -> 0 < dy -> pointer_vote mouse head = (0, 1)) /\
     (Z.abs dx <= Z.abs dy -> dy <= 0 -> pointer_vote mouse head = (0, -1))) /\
    cardinal (pointer_vote mouse head) /\
    (pointer_vote mouse head <> opposite (direction g') ->
       next_direction g' = pointer_vote mouse head) /\
    (pointer_vote mouse head = opposite (direction g') -> g' = g1) /\
    (fst mouse = fst head * cell_size + cell_size / 2 ->
     snd mouse = snd head * cell_size + cell_size / 2 ->
     pointer_vote mouse head = (0, -1)).
Proof.
  unfold handle_input. intros H Hp.
  unbind H as g1 H1.
  apply mouse_vote_cases in H.
  destruct H as [[Hnp ->]|(head & tl & _ & Hs & Hv)]; [contradiction|].
  exists g1, head, tl. split; [exact H1|].
  assert (Hcorner : fst mouse = fst head * cell_size + cell_size / 2 ->
     snd mouse = snd head * cell_size + cell_size / 2 ->
     pointer_vote mouse head = (0, -1)).
  { intros Hx Hy. unfold pointer_vote. rewrite Hx, Hy, !Z.sub_diag. reflexivity. }
  assert (Hfour :
    let dx := fst mouse - fst (pixel_centre head) in
    let dy := snd mouse - snd (pixel_centre head) in
    (Z.abs dy < Z.abs dx -> 0 < dx -> pointer_vote mouse head = (1, 0)) /\
    (Z.abs dy < Z.abs dx -> dx < 0 -> pointer_vote mouse head = (-1, 0)) /\
    (Z.abs dx <= Z.abs dy -> 0 < dy -> pointer_vote mouse head = (0, 1)) /\
    (Z.abs dx <= Z.abs dy -> dy <= 0 -> pointer_vote mouse head = (0, -1))).
  { unfold pointer_vote, pixel_centre. cbn [fst snd]. cbv zeta.
    set (dx := fst mouse - _). set (dy := snd mouse - _).
    repeat split; intros Ha Hb;
      destruct (Z.ltb_spec (Z.abs dy) (Z.abs dx)); try lia;
      [destruct (Z.ltb_spec 0 dx) | destruct (Z.ltb_spec 0 dx)
      | destruct (Z.ltb_spec 0 dy) | destruct (Z.ltb_spec 0 dy)];
      try lia; reflexivity. }
  pose proof (pointer_vote_dominant_axis mouse head) as Hdom.
  destruct Hv as [[Hne ->]|[He ->]].
  - cbn [snake direction next_direction set_next_direction].
    split; [exact Hs|]. split; [exact Hdom|]. split; [exact Hfour|].
    split; [apply pointer_vote_cardinal|].
    split; [reflexivity|]. split; [contradiction | exact Hcorner].
  - split; [exact Hs|]. split; [exact Hdom|]. split; [exact Hfour|].
    split; [apply pointer_vote_cardinal|].
    split; [contradiction|]. split; [reflexivity | exact Hcorner].
Qed.

(** *** The clock *)

Lemma update_frame_count (fuel : nat) (g g' : game) :
  update rand fuel g = Returns g' -> frame_count g' = frame_count g.
Proof.
  intros H. destruct (snake g) as [|head tl] eqn:Hs.
  - rewrite (update_empty fuel g Hs) in H. discriminate.
  - rewrite (update_cases fuel g head tl Hs) in H. cbv zeta in H.
    destruct (collides _ _).
    + injection H as <-. reflexivity.
    + destruct (cell_eqb _ _).
      * apply spawn_food_returns in H.
        destruct H as [(_ & _ & _ & _ & _ & _ & Hf & _) _]. rewrite Hf. reflexivity.
      * injection H as <-. reflexivity.
Qed.

(** What one frame does to the counter, read off the body of [run]. *)
Lemma frame_cases (fuel : nat) (evs : list event) (mouse : cell) (g g1 : game) :
  handle_input rand fuel evs mouse g = Returns g1 ->
  (state g1 <> Playing ->
     frame rand fuel evs mouse g = Returns (false, g1)) /\
  (state g1 = Playing -> frame_count g1 + 1 < frames_per_move ->
     frame rand fuel evs mouse g =
     Returns (false, set_frame_count (frame_count g1 + 1) g1)) /\
  (state g1 = Playing -> frames_per_move <= frame_count g1 + 1 ->
     frame rand fuel evs mouse g =
     (g2 <- update rand fuel (set_frame_count 0 g1) ;; Returns (true, g2))).
Proof.
  intros H. unfold frame. rewrite H. cbn [bind].
  destruct (mode_eqb_spec (state g1) Playing) as [Hp|Hnp].
  - split; [contradiction|]. cbn [frame_count set_frame_count].
    split; intros _ Hc.
    + destruct (Z.leb_spec frames_per_move (frame_count g1 + 1)); [lia|reflexivity].
    + destruct (Z.leb_spec frames_per_move (frame_count g1 + 1)); [reflexivity|lia].
  - split; [reflexivity|]. split; intros Hp; contradiction.
Qed.

(** A frame that ends in Playing mode has advanced the counter by one from
    [clock_start], wrapping at [frames_per_move], and has called [update]
    exactly when it wrapped. *)
Lemma frame_tick (fuel : nat) (evs : list event) (mouse : cell)
  (g : game) (r : bool * game) :
  frame rand fuel evs mouse g = Returns r ->
  0 <= frame_count g < frames_per_move ->
  state (snd r) = Playing ->
  (fst r = true <-> (clock_start g + 1) mod frames_per_move = 0) /\
  frame_count (snd r) = (clock_start g + 1) mod frames_per_move /\
  0 <= clock_start g < frames_per_move.
Proof.
  intros H Hfc Hp.
  assert (H6 : frames_per_move = 6) by reflexivity.
  destruct (handle_input rand fuel evs mouse g) as [g1| |] eqn:Hin;
    try (unfold frame in H; rewrite Hin in H; discriminate).
  destruct (frame_cases fuel evs mouse g g1 Hin) as (Hnot & Hlt & Hge).
  destruct (mode_eqb_spec (state g1) Playing) as [Hp1|Hnp1].
  - assert (Hc : frame_count g1 = clock_start g).
    { unfold clock_start. pose proof (handle_input_track _ _ _ _ _ Hin) as HQ.
      destruct (mode_eqb_spec (state g) Playing) as [Hpg|Hnpg].
      - destruct HQ as [(_ & Hf & _)|(Hx & _)]; [exact Hf | contradiction].
      - destruct HQ as [(Hs & _)|(_ & _ & Hf)]; [congruence | exact Hf]. }
    assert (Hrange : 0 <= clock_start g < frames_per_move).
    { unfold clock_start. destruct (mode_eqb (state g) Playing); lia. }
    rewrite Hc in Hlt, Hge.
    destruct (Z.lt_ge_cases (clock_start g + 1) frames_per_move) as [Hl|Hg].
    + rewrite (Hlt Hp1 Hl) in H. injection H as <-.
      cbn [fst snd frame_count set_frame_count].
      rewrite Z.mod_small by lia. repeat split; try lia; intros; try discriminate.
    + rewrite (Hge Hp1 Hg) in H. unbind H as g2 H2. injection H as <-. cbn [fst snd] in *.
      apply update_frame_count in H2. cbn [frame_count set_frame_count] in H2.
      assert (clock_start g + 1 = frames_per_move) as -> by lia.
      rewrite Z.mod_same by lia. repeat split; try lia; auto.
  - rewrite (Hnot Hnp1) in H. injection H as <-. cbn [snd] in Hp. contradiction.
Qed.

Lemma run_cadence (fuel : nat) (inputs : list (list event * cell)) :
  forall g tr,
    run rand fuel inputs g = Returns tr ->
    0 <= frame_count g < frames_per_move ->
    Forall (fun r => state (snd r) = Playing) tr ->
    forall j r, nth_error tr j = Some r ->
      (fst r = true <->
       (clock_start g + Z.of_nat j + 1) mod frames_per_move = 0) /\
      frame_count (snd r) = (clock_start g + Z.of_nat j + 1) mod frames_per_move.
Proof.
  assert (H6 : frames_per_move = 6) by reflexivity.
  induction inputs as [|[evs mouse] rest IH]; intros g tr H Hfc Hall j r Hj;
    simpl in H.
  - injection H as <-. destruct j; discriminate.
  - unbind H as r0 H0.
    apply bind_returns in H. destruct H as [tr' [Hrest H]]. injection H as <-.
    inversion Hall as [|? ? Hp0 Hall']; subst.
    destruct (frame_tick fuel evs mouse g r0 H0 Hfc Hp0) as (Hflag & Hcount & Hr).
    destruct j as [|j].
    + injection Hj as <-. rewrite Z.add_0_r. split; assumption.
    + cbn [nth_error] in Hj.
      assert (Hfc0 : 0 <= frame_count (snd r0) < frames_per_move).
      { rewrite Hcount. apply Z.mod_pos_bound. lia. }
      destruct (IH (snd r0) tr' Hrest Hfc0 Hall' j r Hj) as [Hf Hc].
      assert (Hstart : clock_start (snd r0) = (clock_start g + 1) mod frames_per_move).
      { unfold clock_start at 1. rewrite Hp0. cbn [mode_eqb]. exact Hcount. }
      rewrite Hstart in Hf, Hc.
      assert (Heq : ((clock_start g + 1) mod frames_per_move + Z.of_nat j + 1)
                      mod frames_per_move =
                    (clock_start g + Z.of_nat (S j) + 1) mod frames_per_move).
      { rewrite <- Z.add_assoc, Z.add_mod_idemp_l by lia. f_equal. lia. }
      rewrite Heq in Hf, Hc. split; assumption.
Qed.

(** C8.  [frames_per_move] is [60 // 10 = 6].  A frame whose poll leaves a
    mode other than Playing calls no [update] and leaves the counter at the
    value it had when the frame began.  A frame whose poll leaves Playing
    advances the counter by one and calls [update], once, with the counter
    back at 0, exactly when the counter has reached 6.  A poll that turns
    Menu or GameOver into Playing leaves the counter at 0.  Hence over any
    stretch of frames that all end in Playing, frame number [j] (from 0)
    steps exactly when [clock_start + j + 1] is a multiple of 6: one step
    every 6 frames, the first one in the sixth frame of a game, the frame of
    the start counted. *)
Theorem simulation_clock :
  frames_per_move = 6 /\
  (forall fuel evs mouse g g1,
     handle_input rand fuel evs mouse g = Returns g1 ->
     state g1 <> Playing ->
     frame rand fuel evs mouse g = Returns (false, g1) /\
     frame_count g1 = frame_count g) /\
  (forall fuel evs mouse g g1,
     handle_input rand fuel evs mouse g = Returns g1 ->
     state g1 = Playing ->
     (frame_count g1 + 1 < 6 ->
        frame rand fuel evs mouse g =
        Returns (false, set_frame_count (frame_count g1 + 1) g1)) /\
     (6 <= frame_count g1 + 1 ->
        frame rand fuel evs mouse g =
        (g2 <- update rand fuel (set_frame_count 0 g1) ;; Returns (true, g2)))) /\
  (forall fuel evs mouse g g1,
     state g <> Playing ->
     handle_input rand fuel evs mouse g = Returns g1 ->
     state g1 = Playing ->
     frame_count g1 = 0) /\
  (forall fuel inputs g tr,
     run rand fuel inputs g = Returns tr ->
     0 <= frame_count g < 6 ->
     Forall (fun r => state (snd r) = Playing) tr ->
     forall j r, nth_error tr j = Some r ->
       (fst r = true <-> (clock_start g + Z.of_nat j + 1) mod 6 = 0) /\
       frame_count (snd r) = (clock_start g + Z.of_nat j + 1) mod 6).
Proof.
  split; [reflexivity|]. split; [|split; [|split]].
  - intros fuel evs mouse g g1 Hin Hnp.
    destruct (frame_cases fuel evs mouse g g1 Hin) as (Hnot & _).
    split; [exact (Hnot Hnp)|].
    destruct (handle_input_track _ _ _ _ _ Hin) as [(_ & Hf & _)|(_ & Hp & _)];
      [exact Hf | contradiction].
  - intros fuel evs mouse g g1 Hin Hp.
    destruct (frame_cases fuel evs mouse g g1 Hin) as (_ & Hlt & Hge).
    split; intros Hc; [apply Hlt | apply Hge]; assumption.
  - intros fuel evs mouse g g1 Hnp Hin Hp.
    destruct (handle_input_track _ _ _ _ _ Hin) as [(Hs & _)|(_ & _ & Hf)];
      [congruence | exact Hf].
  - intros fuel inputs g tr. exact (run_cadence fuel inputs g tr).
Qed.

End GameFacts.

(** *** The statements at sample runs *)

Lemma top_row_turn_reachable : reachable rand0 top_row_turn.
Proof.
  apply (exec_reachable rand0 1 up_then_right at_menu).
  - apply (reach_reset rand0 1 blank). reflexivity.
  - vm_compute. reflexivity.
Qed.

(** C2 as stated fails: heading right along the top row with a vote for up
    pending (a state reached by [up_then_right] from the menu), the new head
    (16, -1) is outside the grid, and the step that ends the game also turns
    the current direction from (1, 0) to (0, -1); the object is not the one
    before the step with only the mode changed. *)
Lemma collision_changes_direction :
  (g <- boot rand0 1 ;; exec rand0 1 up_then_right g) = Returns top_row_turn /\
  in_grid (new_head_of (16, 0) (next_direction top_row_turn)) = false /\
  update rand0 0 top_row_turn = Returns (crashed top_row_turn) /\
  direction top_row_turn = (1, 0) /\
  direction (crashed top_row_turn) = (0, -1) /\
  update rand0 0 top_row_turn <> Returns (set_state GameOver top_row_turn).
Proof.
  repeat split; try (vm_compute; reflexivity).
  vm_compute. discriminate.
Qed.

Lemma update_collision_ends_game_witness :
  update rand0 0 top_row_turn = Returns (crashed top_row_turn) /\
  snake (crashed top_row_turn) = [(16, 0)] /\
  score (crashed top_row_turn) = 0.
Proof.
  destruct (update_collision_ends_game rand0 0 top_row_turn (16, 0) []
              eq_refl (or_introl eq_refl))
    as (H & _ & _ & _ & _ & Hs & _ & Hsc & _).
  exact (conj H (conj Hs Hsc)).
Defined.

Lemma not_on_singleton (p q : cell) : cell_eqb p q = false -> ~ In p [q].
Proof.
  intros H [He|[]]. subst. rewrite cell_eqb_refl in H. discriminate.
Qed.

Lemma update_growth_witness :
  (exists g', update rand_ahead 1 food_ahead = Returns g' /\
     length (snake g') = 2%nat /\ score g' = 1) /\
  (exists g', update rand0 0 (set_next_direction (1, 0) top_row_turn) = Returns g' /\
     length (snake g') = 1%nat /\ score g' = 0).
Proof.
  split.
  - destruct (update_growth rand_ahead food_ahead (15, 10) [] eq_refl eq_refl
                (not_on_singleton (16, 10) (15, 10) eq_refl)) as [Heat _].
    destruct (Heat eq_refl) as [Hany Hret].
    destruct (Hret 0%nat) as [g' Hg'].
    + vm_compute. intros [H|[H|[]]]; discriminate.
    + exists g'. split; [exact Hg'|]. exact (Hany 1%nat g' Hg').
  - destruct (update_growth rand0 (set_next_direction (1, 0) top_row_turn)
                (16, 0) [] eq_refl eq_refl
                (not_on_singleton (17, 0) (16, 0) eq_refl)) as [_ Hmove].
    apply (Hmove ltac:(vm_compute; discriminate) 0%nat).
Defined.

Lemma just_started_reachable : reachable rand0 just_started.
Proof. apply (reach_reset rand0 1 (set_state Playing blank)). reflexivity. Qed.

Lemma no_reversal_takes_effect_witness :
  next_direction top_row_turn <> opposite (direction top_row_turn) /\
  direction (crashed top_row_turn) <> opposite (direction top_row_turn) /\
  (forall g1 g2 g3,
     update rand0 0 just_started = Returns g1 ->
     polls rand0 0 [([KEYDOWN K_LEFT], (0, 210))] g1 = Returns g2 ->
     update rand0 0 g2 = Returns g3 ->
     direction g3 <> opposite (direction g1)).
Proof.
  destruct (no_reversal_takes_effect rand0) as (Hvote & _ & _ & Hstep & Htrace).
  split; [|split].
  - exact (proj2 (Hvote top_row_turn top_row_turn_reachable)).
  - exact (proj2 (Hstep top_row_turn 0%nat (crashed top_row_turn)
                    top_row_turn_reachable eq_refl)).
  - intros g1 g2 g3 H1 H2 H3.
    refine (Htrace just_started 0%nat g1 0%nat _ g2 0%nat g3
              just_started_reachable H1 _ H2 H3).
    vm_compute in H1. injection H1 as <-. reflexivity.
Defined.

Lemma snake_well_formed_witness :
  well_formed top_row_turn /\
  (forall g', reset rand0 1 blank = Returns g' -> well_formed g') /\
  (forall g', update rand_ahead 1 food_ahead = Returns g' -> well_formed g').
Proof.
  destruct (snake_well_formed rand0) as (Hreach & Hreset & _).
  destruct (snake_well_formed rand_ahead) as (_ & Hreset' & Hstep).
  split; [|split].
  - exact (Hreach top_row_turn top_row_turn_reachable).
  - exact (Hreset 1%nat blank).
  - intros g'. apply (Hstep 1%nat food_ahead g').
    apply (Hreset' 1%nat (set_state Playing blank)). reflexivity.
Defined.

Lemma food_placed_off_snake_witness :
  (exists g', reset rand0 1 blank = Returns g' /\ ~ In (food g') (snake g')) /\
  (exists g', update rand_ahead 1 food_ahead = Returns g' /\
     ~ In (food g') (snake g')).
Proof.
  destruct (food_placed_off_snake rand0) as (_ & _ & Hreset & _).
  destruct (food_placed_off_snake rand_ahead) as (_ & _ & _ & _ & Heat).
  split.
  - apply (Hreset 0%nat blank). apply not_on_singleton. reflexivity.
  - apply (Heat 0%nat food_ahead (15, 10) [] eq_refl eq_refl eq_refl).
    vm_compute. intros [H|[H|[]]]; discriminate.
Defined.

Lemma pointer_votes_every_poll_witness :
  exists g1 head tl,
    handle_events rand0 0 [KEYDOWN K_UP] just_started = Returns g1 /\
    snake (set_next_direction (1, 0) g1) = head :: tl /\
    next_direction g1 = (0, -1) /\
    pixel_centre head = (310, 210) /\
    pointer_vote (600, 210) head = (1, 0) /\
    pointer_vote (600, 210) head = dominant_axis_vote 290 0 /\
    pointer_vote (310, 210) head = (0, -1) /\
    pointer_vote (300, 400) head = (0, 1) /\
    pointer_vote (0, 200) head = (-1, 0).
Proof.
  destruct (pointer_votes_every_poll rand0 0 [KEYDOWN K_UP] (600, 210)
              just_started
              (set_next_direction (1, 0) (set_next_direction (0, -1) just_started))
              eq_refl eq_refl)
    as (g1 & head & tl & H1 & Hs & _ & _ & _ & _ & _ & _).
  exists g1, head, tl.
  vm_compute in H1. injection H1 as <-.
  vm_compute in Hs. injection Hs as <- <-.
  repeat split.
Defined.

Lemma simulation_clock_witness :
  exists tr r,
    run rand0 1 seven_frames at_menu = Returns tr /\
    nth_error tr 5 = Some r /\
    fst r = true /\ frame_count (snd r) = 0.
Proof.
  destruct (simulation_clock rand0) as (_ & _ & _ & _ & Hcadence).
  destruct (run rand0 1 seven_frames at_menu) as [tr| |] eqn:Hrun;
    try (vm_compute in Hrun; discriminate).
  assert (Hall : Forall (fun r => state (snd r) = Playing) tr).
  { vm_compute in Hrun. injection Hrun as <-. repeat constructor. }
  destruct (nth_error tr 5) as [r|] eqn:Hr;
    [|vm_compute in Hrun; injection Hrun as <-; discriminate].
  destruct (Hcadence 1%nat seven_frames at_menu tr Hrun
              ltac:(vm_compute; split; congruence) Hall 5%nat r Hr)
    as [Hflag Hcount].
  exists tr, r. split; [reflexivity|]. split; [exact Hr|].
  split; [apply Hflag; reflexivity | exact Hcount].
Defined.

(** * Properties of the synthesizer *)

Import SoundManager.

Lemma binary_round_aux_sign (s : bool) (m e : Z) (l : location) :
  sign_is s (binary_round_aux prec emax s m e l).
Proof.
  unfold binary_round_aux.
  destruct (shr_fexp prec emax m e l) as [mrs1 e1].
  destruct (shr_fexp prec emax _ e1 loc_Exact) as [mrs2 e2].
  destruct (shr_m mrs2); [reflexivity| |exact I].
  destruct (Z.leb e2 (Z.sub emax prec)); reflexivity.
Qed.

Lemma float_of_int_pos (z : Z) (x : float) :
  0 < z -> float_of_int z = Returns x -> sign_is false x /\ is_finite x || zero_or_nan x = true.
Proof.
  intros Hz H. unfold float_of_int in H.
  destruct z as [|p|p]; try lia. cbn [binary_normalize] in H.
  unfold binary_round in H.
  destruct (shl_align p 0 _) as [mz ez].
  pose proof (binary_round_aux_sign false (Zpos mz) ez loc_Exact) as Hs.
  destruct (binary_round_aux prec emax false (Zpos mz) ez loc_Exact);
    try discriminate; injection H as <-; split; auto.
Qed.

Lemma float_of_int_0 : float_of_int 0 = Returns (S754_zero false).
Proof. reflexivity. Qed.

Lemma fmul_zero_or_nan_r (x y : float) :
  zero_or_nan y = true -> zero_or_nan (fmul x y) = true.
Proof. destruct x, y; simpl; intros H; congruence. Qed.

Lemma fmul_zero_or_nan_l (x y : float) :
  zero_or_nan x = true -> zero_or_nan (fmul x y) = true.
Proof. destruct x, y; simpl; intros H; congruence. Qed.

Lemma fdiv_zero_or_nan (x y q : float) :
  zero_or_nan x = true -> fdiv x y = Returns q -> zero_or_nan q = true.
Proof.
  unfold fdiv. destruct x, y; simpl; intros Hx H; try discriminate;
    injection H as <-; reflexivity.
Qed.

Lemma gt0_zero_or_nan (x : float) : zero_or_nan x = true -> gt0 x = false.
Proof. destruct x; simpl; intros H; try discriminate; reflexivity. Qed.

Lemma py_round_zero_or_nan (x : float) (n : Z) :
  zero_or_nan x = true -> py_round x = Returns n -> n = 0.
Proof. destruct x; simpl; intros Hx H; try discriminate; congruence. Qed.

Lemma split_magnitude_nonneg (m : positive) (e : Z) :
  0 <= fst (fst (split_magnitude m e)).
Proof.
  unfold split_magnitude. destruct e as [|p|p]; cbn [fst].
  - lia.
  - apply Z.mul_nonneg_nonneg; [lia | apply Z.pow_nonneg; lia].
  - apply Z.div_pos; [lia | apply Z.pow_pos_nonneg; lia].
Qed.

Lemma py_round_finite (x : float) :
  is_finite x = true -> exists n, py_round x = Returns n.
Proof.
  destruct x as [s|s| |s m e]; simpl; intros H; try discriminate; eauto.
  destruct (split_magnitude m e) as [[q r] d]. eauto.
Qed.

Lemma py_int_finite (x : float) :
  is_finite x = true -> exists n, py_int x = Returns n.
Proof.
  destruct x as [s|s| |s m e]; simpl; intros H; try discriminate; eauto.
  destruct (split_magnitude m e) as [[q r] d]. eauto.
Qed.

Lemma py_round_negative (x : float) (n : Z) :
  sign_is true x -> py_round x = Returns n -> n <= 0.
Proof.
  destruct x as [s|s| |s m e]; simpl; intros Hs H; try discriminate.
  - injection H as <-. lia.
  - subst s. pose proof (split_magnitude_nonneg m e) as Hq.
    destruct (split_magnitude m e) as [[q r] d]. cbn [fst] in Hq.
    injection H as <-. unfold signed.
    match goal with |- - (if ?b then _ else _) <= 0 => destruct b end; lia.
Qed.

(** A duration that is zero or negative times a positive rate: the product
    is a zero, or negative, or not a number. *)
Lemma fmul_nonpositive (duration sr : float) :
  le0 duration = true -> sign_is false sr ->
  zero_or_nan (fmul duration sr) = true \/ sign_is true (fmul duration sr).
Proof.
  intros Hd Hs.
  destruct duration as [sd|sd| |sd md ed]; try discriminate.
  - left. apply fmul_zero_or_nan_l. reflexivity.
  - destruct sd; [|discriminate].
    destruct sr as [ss|ss| |ss ms es]; simpl in *; subst; auto.
  - destruct sd; [|discriminate].
    destruct sr as [ss|ss| |ss ms es]; simpl in Hs; subst; simpl; auto.
    right. apply binary_round_aux_sign.
Qed.

Lemma n_samples_positive (duration : float) (sample_rate n : Z) :
  n_samples_of duration sample_rate = Returns n -> 1 <= n ->
  is_zero duration = false /\
  exists sr, float_of_int sample_rate = Returns sr /\ is_zero sr = false.
Proof.
  unfold n_samples_of. intros H Hn.
  unbind H as sr Hsr.
  split.
  - destruct duration; try reflexivity.
    apply py_round_zero_or_nan in H; [lia | apply fmul_zero_or_nan_l; reflexivity].
  - exists sr. split; [exact Hsr|].
    destruct sr; try reflexivity.
    apply py_round_zero_or_nan in H; [lia | apply fmul_zero_or_nan_r; reflexivity].
Qed.

Lemma phase_returns (current_freq t : float) :
  phase current_freq t =
  Returns (fmul (fmul (fmul (literal 2 0) pi) current_freq) t).
Proof. reflexivity. Qed.

Lemma fdiv_returns (x y : float) :
  is_zero y = false -> fdiv x y = Returns (SFdiv prec emax x y).
Proof. unfold fdiv. intros ->. reflexivity. Qed.

Lemma store_h_returns (v : Z) : -32768 <= v <= 32767 -> store_h v = Returns v.
Proof.
  intros H. unfold store_h.
  destruct (Z.leb_spec (-32768) v), (Z.leb_spec v 32767); try lia. reflexivity.
Qed.

Lemma store_h_value (v w : Z) : store_h v = Returns w -> w = v.
Proof.
  unfold store_h. destruct (_ && _); intros H; [congruence | discriminate].
Qed.

Lemma fill_empty libm_sin freq duration shape decay sample_rate max_amp i :
  fill libm_sin freq duration shape decay sample_rate max_amp i 0 = Returns [].
Proof. reflexivity. Qed.

(** The allocation of the buffer: which counts it accepts. *)
Ltac index_bounds :=
  change (ssize_max / 8) with 1152921504606846975 in *;
  change ssize_max with 9223372036854775807 in *;
  change (2 ^ 63) with 9223372036854775808 in *.

Ltac allocate_cases :=
  unfold allocate; index_bounds;
  repeat match goal with
         | |- context [?a <? ?b] => destruct (Z.ltb_spec a b)
         end;
  cbn [orb]; try reflexivity; lia.

Lemma allocate_returns (n : Z) :
  - 2 ^ 63 <= n <= ssize_max / 8 ->
  allocate n = Returns (repeat 0 (Z.to_nat n)).
Proof. intros H. allocate_cases. Qed.

Lemma allocate_outside (n : Z) :
  n < - 2 ^ 63 \/ 2 ^ 63 <= n -> allocate n = Raises OverflowError.
Proof. intros H. allocate_cases. Qed.

Lemma allocate_too_large (n : Z) :
  ssize_max / 8 < n < 2 ^ 63 -> allocate n = Raises MemoryError.
Proof. intros H. allocate_cases. Qed.

Lemma allocate_inv (n : Z) (zeros : list Z) :
  allocate n = Returns zeros ->
  - 2 ^ 63 <= n <= ssize_max / 8 /\ zeros = repeat 0 (Z.to_nat n).
Proof.
  intros H.
  destruct (Z_lt_le_dec n (- 2 ^ 63)) as [Hlo|Hlo].
  { rewrite allocate_outside in H by lia. discriminate. }
  destruct (Z_lt_le_dec (ssize_max / 8) n) as [Hhi|Hhi].
  - destruct (Z_lt_le_dec n (2 ^ 63)) as [Hin|Hout].
    + rewrite allocate_too_large in H by lia. discriminate.
    + rewrite allocate_outside in H by lia. discriminate.
  - rewrite allocate_returns in H by lia. injection H as <-.
    split; [lia | reflexivity].
Qed.

Section Silence.

Variable libm_sin : float -> float.

(** C9, as amended.  For a duration that is zero or negative, a positive
    sample rate that converts to a double, and arguments for which neither
    [duration * sample_rate] nor [32767 * volume] overflows or is NaN: the
    sample count [n] is zero or negative.  When [n] is not below [-2 ** 63],
    the least repeat count the index type holds, the buffer is the empty
    one, the loop body never runs, and [_make_sound] returns the empty
    buffer without raising, whatever the frequency, the shape and the decay
    flag; when [n] is below [-2 ** 63], the allocation [[0] * n_samples]
    raises OverflowError.  With decay set and a zero duration the loop body
    would raise ZeroDivisionError at index 0, had it run. *)
Theorem nonpositive_duration_is_silent
  (freq : Z) (duration volume : float) (shape : String.string) (decay : bool)
  (sample_rate : Z) (sr : float) :
  le0 duration = true ->
  0 < sample_rate ->
  float_of_int sample_rate = Returns sr ->
  is_finite (fmul duration sr) = true ->
  is_finite (fmul amp_scale volume) = true ->
  exists n,
    n_samples_of duration sample_rate = Returns n /\ n <= 0 /\
    Z.to_nat n = 0%nat /\
    (- 2 ^ 63 <= n ->
       allocate n = Returns [] /\
       _make_sound libm_sin freq duration volume shape decay sample_rate =
         Returns []) /\
    (n < - 2 ^ 63 ->
       _make_sound libm_sin freq duration volume shape decay sample_rate =
         Raises OverflowError) /\
    (is_zero duration = true -> forall max_amp,
       sample libm_sin freq duration shape true sample_rate max_amp 0 =
       Raises ZeroDivisionError).
Proof.
  intros Hd Hpos Hsr Hfin Hvol.
  destruct (py_round_finite _ Hfin) as [n Hn].
  assert (Hle : n <= 0).
  { destruct (float_of_int_pos _ _ Hpos Hsr) as [Hs _].
    destruct (fmul_nonpositive duration sr Hd Hs) as [Hz|Hneg].
    - rewrite (py_round_zero_or_nan _ _ Hz Hn). lia.
    - exact (py_round_negative _ _ Hneg Hn). }
  assert (Hns : n_samples_of duration sample_rate = Returns n).
  { unfold n_samples_of. rewrite Hsr. exact Hn. }
  assert (Hcount : Z.to_nat n = 0%nat) by lia.
  exists n. split; [exact Hns|]. split; [exact Hle|]. split; [exact Hcount|].
  split; [|split].
  - intros Hfit.
    assert (Hal : allocate n = Returns []).
    { rewrite allocate_returns.
      - rewrite Hcount. reflexivity.
      - index_bounds. lia. }
    split; [exact Hal|].
    unfold _make_sound. rewrite Hns. cbn [bind]. rewrite Hal. cbn [bind].
    destruct (py_int_finite _ Hvol) as [a Ha].
    assert (Hamp : max_amp_of volume = Returns a) by exact Ha.
    rewrite Hamp. cbn [bind]. rewrite Hcount. reflexivity.
  - intros Hlow. unfold _make_sound. rewrite Hns. cbn [bind].
    rewrite allocate_outside by (left; exact Hlow). reflexivity.
  - intros Hzero max_amp. unfold sample.
    rewrite float_of_int_0, Hsr. cbn [bind].
    unfold fdiv at 1. destruct (is_zero sr); [reflexivity|]. cbn [bind].
    unfold fdiv. rewrite Hzero. reflexivity.
Qed.

End Silence.

Section SquareStart.

Variable libm_sin : float -> float.

(** What the C standard asks of [sin] at the zeros and at NaN. *)
Hypothesis sin_zero : forall s, libm_sin (S754_zero s) = S754_zero s.
Hypothesis sin_nan : libm_sin S754_nan = S754_nan.

Lemma math_sin_zero_or_nan (x : float) :
  zero_or_nan x = true ->
  exists s, math_sin libm_sin x = Returns s /\ gt0 s = false.
Proof.
  destruct x as [s|s| |s m e]; intros H; try discriminate; simpl.
  - rewrite sin_zero. eauto.
  - rewrite sin_nan. eauto.
Qed.

(** The square branch at index 0, once the time and the current frequency
    are there: the phase is a zero or NaN, its sine is not above 0. *)
Lemma square_value_at_zero (current_freq t : float) (max_amp : Z) :
  zero_or_nan t = true ->
  (x <- phase current_freq t ;;
   s <- math_sin libm_sin x ;;
   Returns (if gt0 s then max_amp else - max_amp)) = Returns (- max_amp).
Proof.
  intros Ht. rewrite phase_returns. cbn [bind].
  destruct (math_sin_zero_or_nan
              (fmul (fmul (fmul (literal 2 0) pi) current_freq) t)
              (fmul_zero_or_nan_r _ t Ht)) as [s [Hs Hg]].
  rewrite Hs. cbn [bind]. rewrite Hg. reflexivity.
Qed.

Lemma square_sample0_value (freq : Z) (duration : float) (decay : bool)
  (sample_rate max_amp v : Z) :
  sample libm_sin freq duration "square" decay sample_rate max_amp 0 = Returns v ->
  v = - max_amp.
Proof.
  unfold sample. rewrite float_of_int_0. cbn [bind]. intros H.
  unbind H as sr Hsr.
  unbind H as t Ht.
  unbind H as cf Hcf.
  apply fdiv_zero_or_nan in Ht; [|reflexivity].
  change (is_square "square") with true in H. cbv iota in H.
  rewrite (square_value_at_zero cf t max_amp Ht) in H. cbn [bind] in H.
  apply store_h_value in H. exact H.
Qed.

Lemma square_sample0_returns (freq : Z) (duration : float) (decay : bool)
  (sample_rate max_amp n : Z) (f : float) :
  n_samples_of duration sample_rate = Returns n -> 1 <= n ->
  float_of_int freq = Returns f ->
  -32767 <= max_amp <= 32768 ->
  sample libm_sin freq duration "square" decay sample_rate max_amp 0 =
  Returns (- max_amp).
Proof.
  intros Hn H1 Hf Hrange.
  destruct (n_samples_positive _ _ _ Hn H1) as [Hd [sr [Hsr Hz]]].
  unfold sample. rewrite float_of_int_0, Hsr. cbn [bind].
  rewrite (fdiv_returns _ sr Hz). cbn [bind].
  assert (Ht : zero_or_nan (SFdiv prec emax (S754_zero false) sr) = true).
  { apply (fdiv_zero_or_nan (S754_zero false) sr); [reflexivity|].
    apply fdiv_returns, Hz. }
  assert (Hcf : exists cf,
    (if decay then
       q <- fdiv (SFdiv prec emax (S754_zero false) sr) duration ;;
       one <- float_of_int 1 ;;
       f <- float_of_int freq ;;
       Returns (fmul f (fsub one q))
     else float_of_int freq) = Returns cf).
  { destruct decay; [|eauto].
    rewrite (fdiv_returns _ duration Hd). cbn [bind].
    change (float_of_int 1) with (Returns (literal 1 0)). cbn [bind].
    rewrite Hf. cbn [bind]. eauto. }
  destruct Hcf as [cf Hcf]. rewrite Hcf. cbn [bind].
  change (is_square "square") with true. cbv iota.
  rewrite (square_value_at_zero cf _ max_amp Ht). cbn [bind].
  apply store_h_returns. lia.
Qed.

(** C7, as amended.  Whenever the buffer has a sample 0, the frequency
    converts to a double (every frequency above 0 that a double can hold
    does) and the value [- max_amp], for the peak
    [max_amp = int(32767 * volume)], fits the signed 16-bit slot, the first
    round of the loop stores [- max_amp] for the square shape, with or
    without decay: the sine of the phase 0 is 0, which is not above 0.  So
    every square buffer [_make_sound] returns starts with [- max_amp]. *)
Theorem square_first_sample_is_low
  (freq : Z) (duration volume : float) (decay : bool)
  (sample_rate n max_amp : Z) (f : float) :
  n_samples_of duration sample_rate = Returns n -> 1 <= n ->
  max_amp_of volume = Returns max_amp -> -32768 <= - max_amp <= 32767 ->
  float_of_int freq = Returns f ->
  sample libm_sin freq duration "square" decay sample_rate max_amp 0 =
    Returns (- max_amp) /\
  (forall buf,
     _make_sound libm_sin freq duration volume "square" decay sample_rate =
       Returns buf ->
     exists rest, buf = - max_amp :: rest).
Proof.
  intros Hn H1 Ha Hrange Hf. split.
  - exact (square_sample0_returns freq duration decay sample_rate max_amp n f
             Hn H1 Hf ltac:(lia)).
  - intros buf H. unfold _make_sound in H. rewrite Hn in H. cbn [bind] in H.
    apply bind_returns in H. destruct H as [zeros [_ H]].
    rewrite Ha in H. cbn [bind] in H.
    destruct (Z.to_nat n) as [|count] eqn:Hc; [lia|].
    cbn [fill] in H.
    unbind H as v Hv.
    apply bind_returns in H. destruct H as [rest [_ H]].
    injection H as <-. exists rest.
    apply square_sample0_value in Hv. rewrite Hv. reflexivity.
Qed.

End SquareStart.

(** *** The statements at sample arguments *)

(** C7 as stated fails: for the eat effect (1200 Hz, 0.05 s, volume 0.4,
    square, no decay, 44100 Hz) the buffer has 2205 samples, the peak is
    [int(13106.8) = 13106] (13107 when rounded), and the first round of the
    loop stores -13106, not +13106 and not +13107. *)
Lemma square_starts_at_minus_peak :
  n_samples_of eat_duration mixer_rate = Returns 2205 /\
  max_amp_of eat_volume = Returns 13106 /\
  py_round (fmul amp_scale eat_volume) = Returns 13107 /\
  sample small_angle_sin 1200 eat_duration "square" false mixer_rate 13106 0 =
    Returns (-13106) /\
  sample small_angle_sin 1200 eat_duration "square" false mixer_rate 13106 0 <>
    Returns 13106 /\
  sample small_angle_sin 1200 eat_duration "square" false mixer_rate 13106 0 <>
    Returns 13107.
Proof.
  repeat split; try (vm_compute; reflexivity); vm_compute; discriminate.
Qed.

Lemma square_first_sample_is_low_witness :
  sample small_angle_sin 1200 eat_duration "square" false mixer_rate 13106 0 =
    Returns (-13106) /\
  sample small_angle_sin 400 eat_duration "square" true mixer_rate 13106 0 =
    Returns (-13106).
Proof.
  split.
  - exact (proj1 (square_first_sample_is_low small_angle_sin
             (fun s => eq_refl) eq_refl
             1200 eat_duration eat_volume false mixer_rate 2205 13106
             (literal 1200 0) eq_refl ltac:(lia) eq_refl ltac:(lia) eq_refl)).
  - exact (proj1 (square_first_sample_is_low small_angle_sin
             (fun s => eq_refl) eq_refl
             400 eat_duration eat_volume true mixer_rate 2205 13106
             (literal 400 0) eq_refl ltac:(lia) eq_refl ltac:(lia) eq_refl)).
Defined.

(** C9 as stated fails: [-2.0 ** 1023] is a finite negative duration, its
    product with the rate 44100 overflows to minus infinity, and [round]
    raises OverflowError: no buffer is returned.  For the duration [-1e30]
    the product is finite, the count is far below [-2 ** 63], and the
    allocation of the buffer raises OverflowError.  A NaN volume raises
    ValueError whatever the duration, and with a negative rate a negative
    duration gives 2205 rounds of the loop. *)
Lemma huge_negative_duration_raises :
  le0 huge_negative = true /\
  is_finite huge_negative = true /\
  _make_sound small_angle_sin 1200 huge_negative eat_volume "square" false
    mixer_rate = Raises OverflowError /\
  le0 minus_1e30 = true /\
  is_finite (fmul minus_1e30 (literal 44100 0)) = true /\
  n_samples_of minus_1e30 mixer_rate =
    Returns (-44100000000000004113874187557273600) /\
  _make_sound small_angle_sin 1200 minus_1e30 eat_volume "square" false
    mixer_rate = Raises OverflowError /\
  _make_sound small_angle_sin 1200 minus_eat_duration S754_nan "square" false
    mixer_rate = Raises ValueError /\
  le0 minus_eat_duration = true /\
  n_samples_of minus_eat_duration (- mixer_rate) = Returns 2205.
Proof. repeat split; vm_compute; reflexivity. Qed.

Lemma nonpositive_duration_is_silent_witness :
  _make_sound small_angle_sin 400 (S754_zero false) eat_volume "sawtooth" true
    mixer_rate = Returns [] /\
  sample small_angle_sin 400 (S754_zero false) "sawtooth" true mixer_rate
    13106 0 = Raises ZeroDivisionError /\
  _make_sound small_angle_sin 1200 minus_eat_duration eat_volume "square" false
    mixer_rate = Returns [] /\
  _make_sound small_angle_sin 1200 minus_1e30 eat_volume "square" false
    mixer_rate = Raises OverflowError.
Proof.
  destruct (nonpositive_duration_is_silent small_angle_sin
              400 (S754_zero false) eat_volume "sawtooth" true mixer_rate
              (literal 44100 0) eq_refl ltac:(reflexivity) eq_refl eq_refl eq_refl)
    as (n0 & Hn0 & _ & _ & Hzero & _ & Hdiv).
  vm_compute in Hn0. injection Hn0 as <-.
  destruct (nonpositive_duration_is_silent small_angle_sin
              1200 minus_eat_duration eat_volume "square" false mixer_rate
              (literal 44100 0) eq_refl ltac:(reflexivity) eq_refl eq_refl eq_refl)
    as (n1 & Hn1 & _ & _ & Hneg & _ & _).
  vm_compute in Hn1. injection Hn1 as <-.
  destruct (nonpositive_duration_is_silent small_angle_sin
              1200 minus_1e30 eat_volume "square" false mixer_rate
              (literal 44100 0) eq_refl ltac:(reflexivity) eq_refl eq_refl eq_refl)
    as (n2 & Hn2 & _ & _ & _ & Hlow & _).
  vm_compute in Hn2. injection Hn2 as <-.
  exact (conj (proj2 (Hzero ltac:(index_bounds; lia)))
           (conj (Hdiv eq_refl 13106)
              (conj (proj2 (Hneg ltac:(index_bounds; lia)))
                 (Hlow ltac:(index_bounds; lia))))).
Defined.

(** *** What holds of every buffer without an argument about rounding *)

Lemma fill_length libm_sin freq duration shape decay sample_rate max_amp
  (count : nat) :
  forall i buf,
    fill libm_sin freq duration shape decay sample_rate max_amp i count =
      Returns buf ->
    length buf = count.
Proof.
  induction count as [|count IH]; intros i buf H; cbn [fill] in H.
  - injection H as <-. reflexivity.
  - apply bind_returns in H. destruct H as [v [_ H]].
    unbind H as rest Hrest.
    injection H as <-. cbn [length]. f_equal. exact (IH _ _ Hrest).
Qed.

(** [_make_sound] returns when its four parts do: the count, the
    allocation, the peak and the loop. *)
Lemma make_sound_returns libm_sin freq duration volume shape decay sample_rate
  (buf : list Z) :
  _make_sound libm_sin freq duration volume shape decay sample_rate = Returns buf ->
  exists n a,
    n_samples_of duration sample_rate = Returns n /\
    - 2 ^ 63 <= n <= ssize_max / 8 /\
    max_amp_of volume = Returns a /\
    fill libm_sin freq duration shape decay sample_rate a 0 (Z.to_nat n) =
      Returns buf.
Proof.
  unfold _make_sound. intros H.
  unbind H as n Hn. unbind H as zeros Hz. unbind H as a Ha.
  exists n, a. split; [exact Hn|]. split; [exact (proj1 (allocate_inv _ _ Hz))|].
  split; [exact Ha | exact H].
Qed.

Lemma make_sound_from_loop l f d v shape decay rate (n a : Z) (buf : list Z) :
  n_samples_of d rate = Returns n ->
  - 2 ^ 63 <= n <= ssize_max / 8 ->
  max_amp_of v = Returns a ->
  fill l f d shape decay rate a 0 (Z.to_nat n) = Returns buf ->
  _make_sound l f d v shape decay rate = Returns buf.
Proof.
  intros Hn Hr Ha H. unfold _make_sound. rewrite Hn. cbn [bind].
  rewrite (allocate_returns n Hr). cbn [bind]. rewrite Ha. cbn [bind]. exact H.
Qed.

(** A buffer that is returned has [n_samples] samples when that number is
    positive and none otherwise. *)
Lemma make_sound_length libm_sin freq duration volume shape decay sample_rate
  (buf : list Z) :
  _make_sound libm_sin freq duration volume shape decay sample_rate = Returns buf ->
  exists n, n_samples_of duration sample_rate = Returns n /\
            length buf = Z.to_nat n.
Proof.
  intros H. apply make_sound_returns in H.
  destruct H as (n & a & Hn & _ & _ & H).
  exists n. split; [exact Hn | exact (fill_length _ _ _ _ _ _ _ _ _ _ H)].
Qed.

(** Every sample of a square buffer is the peak or its negative. *)
Lemma square_sample_values libm_sin freq duration decay sample_rate
  (max_amp i v : Z) :
  sample libm_sin freq duration "square" decay sample_rate max_amp i = Returns v ->
  v = max_amp \/ v = - max_amp.
Proof.
  unfold sample. intros H.
  apply bind_returns in H. destruct H as [fi [_ H]].
  apply bind_returns in H. destruct H as [sr [_ H]].
  apply bind_returns in H. destruct H as [t [_ H]].
  apply bind_returns in H. destruct H as [cf [_ H]].
  unbind H as val Hval.
  apply store_h_value in H. subst v.
  change (is_square "square") with true in Hval. cbv iota in Hval.
  apply bind_returns in Hval. destruct Hval as [x [_ Hval]].
  apply bind_returns in Hval. destruct Hval as [sn [_ Hval]].
  injection Hval as <-. destruct (gt0 sn); auto.
Qed.


(** Where rounding decides: at the phase [2 ** 52 + 1] the sum
    [0.5 + phase] rounds up to the next even integer, the sawtooth term is
    [2 * (-1)], and the value computed for the sample is [-2 * max_amp]:
    stored at volume 0.4, refused by the 16-bit slot at volume 1. *)
Example sawtooth_beyond_2_52 :
  sample small_angle_sin odd_above_2_52 two_seconds "sawtooth" false mixer_rate
    13106 44100 = Returns (-26212) /\
  sample small_angle_sin odd_above_2_52 two_seconds "sawtooth" false mixer_rate
    32767 44100 = Raises OverflowError.
Proof. split; vm_compute; reflexivity. Qed.

(** * More properties of the game *)

Lemma removelast_cons {A : Type} (a : A) (l : list A) :
  l <> [] -> removelast (a :: l) = a :: removelast l.
Proof. destruct l; [congruence | reflexivity]. Qed.

Lemma chain_removelast (l : list cell) : chain l -> chain (removelast l).
Proof.
  induction l as [|a l IH]; [auto|].
  destruct l as [|b l]; [intros _; exact I|].
  intros [Hab Hc]. rewrite removelast_cons by discriminate.
  specialize (IH Hc).
  destruct l as [|c l]; [exact I|].
  rewrite removelast_cons in * by discriminate. split; assumption.
Qed.

Lemma Forall_removelast {A : Type} (P : A -> Prop) (l : list A) :
  Forall P l -> Forall P (removelast l).
Proof.
  rewrite !Forall_forall. intros H x Hx. apply H, removelast_incl, Hx.
Qed.

Lemma step_adjacent (head d : cell) :
  cardinal d -> adjacent (new_head_of head d) head.
Proof.
  unfold adjacent, new_head_of.
  intros [-> | [-> | [-> | ->]]]; cbn [fst snd]; lia.
Qed.

Section BoardFacts.

Variable rand : nat -> Z.

Lemma spawn_food_in_grid (fuel : nat) :
  forall g g', spawn_food rand fuel g = Returns g' -> in_grid (food g') = true.
Proof.
  induction fuel as [|fuel IH]; intros g g' H; [discriminate|].
  rewrite spawn_food_S in H.
  destruct (negb (mem (draw rand (rand_used g)) (snake g))).
  - injection H as <-. apply draw_in_grid.
  - exact (IH _ _ H).
Qed.

Lemma reset_tidy (fuel : nat) (g g' : game) :
  reset rand fuel g = Returns g' -> tidy g'.
Proof.
  intros H. pose proof H as H0. unfold reset in H0.
  unbind H0 as g1 H1. injection H0 as <-.
  apply spawn_food_in_grid in H1.
  apply reset_returns in H.
  destruct H as (Hs & Hd & _ & Hsc & _ & _ & _ & _ & Hf).
  unfold tidy. rewrite Hs in *. rewrite Hd, Hsc.
  repeat split; auto; try (unfold cardinal; tauto).
Qed.

Lemma update_tidy (fuel : nat) (g g' : game) :
  tidy g -> cardinal (next_direction g) ->
  update rand fuel g = Returns g' -> tidy g'.
Proof.
  intros (Hgrid & Hfood & Hoff & Hscore & Hchain & Hdir) Hnext H.
  destruct (snake g) as [|head tl] eqn:Hs.
  - rewrite (update_empty rand fuel g Hs) in H. discriminate.
  - rewrite (update_cases rand fuel g head tl Hs) in H. cbv zeta in H.
    destruct (collides _ _) eqn:Hc.
    + injection H as <-. unfold tidy, crashed.
      cbn [snake food score direction set_state set_game_over play set_direction].
      rewrite Hs. repeat split; assumption.
    + apply collides_false in Hc. destruct Hc as [Hin Hnew].
      destruct (cell_eqb_spec (new_head_of head (next_direction g)) (food g))
        as [He|Hne].
      * pose proof (spawn_food_in_grid _ _ _ H) as Hfg.
        apply spawn_food_returns in H.
        destruct H as [(_ & Hsn & Hd & _ & Hsc & _) Hf].
        unfold tidy. rewrite Hsn in *. rewrite Hd, Hsc.
        unfold grown in *; cbn [snake score direction set_snake set_score play
          set_direction] in *. rewrite Hs in *.
        split; [constructor; assumption|].
        split; [exact Hfg|]. split; [exact Hf|].
        split; [cbn [length] in *; lia|].
        split; [|exact Hnext].
        split; [apply step_adjacent, Hnext | exact Hchain].
      * injection H as <-. unfold tidy, moved.
        cbn [snake food score direction set_snake set_direction]. rewrite Hs.
        split; [apply Forall_removelast; constructor; assumption|].
        split; [exact Hfood|].
        split.
        { intros Hx. apply removelast_incl in Hx.
          destruct Hx as [Hx|Hx]; [congruence | contradiction]. }
        split.
        { assert (Hl := removelast_length
            (new_head_of head (next_direction g) :: head :: tl)
            ltac:(discriminate)).
          cbn [length] in *. lia. }
        split; [|exact Hnext].
        apply chain_removelast.
        split; [apply step_adjacent, Hnext | exact Hchain].
Qed.

Lemma reachable_tidy (g : game) : reachable rand g -> tidy g.
Proof.
  induction 1 as [fuel g g' H | fuel evs mouse g g' Hr IH H | fuel g g' Hr IH H].
  - exact (reset_tidy fuel g g' H).
  - revert IH H. apply handle_input_inv.
    + apply reset_tidy.
    + intros k g0. unfold tidy.
      destruct (key_vote_fields k g0) as (_ & Hsn & Hd & Hf & Hsc & _).
      rewrite Hsn, Hd, Hf, Hsc. auto.
    + intros d g0 Ht _ _. exact Ht.
  - apply (update_tidy fuel g g' IH); [|exact H].
    exact (proj1 (reachable_vote_ok rand g Hr)).
Qed.

Lemma reachable_well_formed (g : game) : reachable rand g -> well_formed g.
Proof.
  induction 1 as [fuel g g' H | fuel evs mouse g g' _ IH H | fuel g g' _ IH H].
  - exact (reset_well_formed rand fuel g g' H).
  - revert IH H. apply handle_input_inv.
    + apply reset_well_formed.
    + intros k g0. unfold well_formed.
      destruct (key_vote_fields k g0) as [_ [Hsn _]]. rewrite Hsn. auto.
    + intros d g0 Hw _ _. exact Hw.
  - exact (update_well_formed rand fuel g g' IH H).
Qed.

Lemma in_range (n x : Z) : 0 <= x < n -> In x (range n).
Proof.
  intros H. unfold range. apply in_map_iff. exists (Z.to_nat x).
  split; [lia | apply in_seq; lia].
Qed.

Lemma in_grid_all_cells (p : cell) : in_grid p = true -> In p all_cells.
Proof.
  destruct p as [x y]. unfold in_grid; cbn [fst snd]. intros H.
  apply andb_prop in H. destruct H as [H Hy2].
  apply andb_prop in H. destruct H as [H Hy1].
  apply andb_prop in H. destruct H as [Hx1 Hx2].
  apply Z.leb_le in Hx1, Hy1. apply Z.ltb_lt in Hx2, Hy2.
  unfold all_cells. apply in_flat_map. exists x.
  split; [apply in_range; lia|].
  apply in_map_iff. exists y. split; [reflexivity | apply in_range; lia].
Qed.

(** X1.  In every state reachable from [reset] by polls and steps, all the
    cells of the snake and the food are cells of the 30 x 20 grid. *)
Theorem board_stays_in_grid (g : game) :
  reachable rand g ->
  Forall (fun p => in_grid p = true) (snake g) /\ in_grid (food g) = true.
Proof.
  intros Hr. destruct (reachable_tidy g Hr) as (Hs & Hf & _). auto.
Qed.

(** X2.  In every reachable state, not only right after it is placed, the
    food is on no cell of the snake. *)
Theorem food_never_on_snake (g : game) :
  reachable rand g -> ~ In (food g) (snake g).
Proof.
  intros Hr. destruct (reachable_tidy g Hr) as (_ & _ & Hoff & _). exact Hoff.
Qed.

(** X3.  In every reachable state the score is the length of the snake
    minus one, the snake has at most 600 cells, and so the score lies
    between 0 and 599. *)
Theorem score_is_length_minus_one (g : game) :
  reachable rand g ->
  score g = Z.of_nat (length (snake g)) - 1 /\
  (length (snake g) <= 600)%nat /\
  0 <= score g <= 599.
Proof.
  intros Hr. destruct (reachable_tidy g Hr) as (Hgrid & _ & _ & Hsc & _).
  destruct (reachable_well_formed g Hr) as [Hnd Hlen].
  assert (Hmax : (length (snake g) <= 600)%nat).
  { change 600%nat with (length all_cells).
    apply NoDup_incl_length; [exact Hnd|].
    intros p Hp. apply in_grid_all_cells.
    rewrite Forall_forall in Hgrid. exact (Hgrid p Hp). }
  split; [lia|]. split; [exact Hmax | lia].
Qed.

(** X4.  In every reachable state each cell of the snake is one step along
    one axis from the next cell, and the current direction is one of the
    four unit headings. *)
Theorem snake_is_a_chain (g : game) :
  reachable rand g -> chain (snake g) /\ cardinal (direction g).
Proof.
  intros Hr. destruct (reachable_tidy g Hr) as (_ & _ & _ & _ & Hc & Hd). auto.
Qed.

End BoardFacts.

Lemma after_meal_reachable : reachable rand_ahead after_meal.
Proof.
  apply (reach_step rand_ahead 1 food_ahead).
  - apply (reach_reset rand_ahead 1 (set_state Playing blank)). reflexivity.
  - reflexivity.
Qed.

Lemma board_stays_in_grid_witness :
  Forall (fun p => in_grid p = true) [(16, 10); (15, 10)] /\
  in_grid (3, 3) = true.
Proof. exact (board_stays_in_grid rand_ahead after_meal after_meal_reachable). Defined.

Lemma food_never_on_snake_witness : ~ In (3, 3) [(16, 10); (15, 10)].
Proof. exact (food_never_on_snake rand_ahead after_meal after_meal_reachable). Defined.

Lemma score_is_length_minus_one_witness :
  score after_meal = 2 - 1 /\ (2 <= 600)%nat /\ 0 <= score after_meal <= 599.
Proof.
  exact (score_is_length_minus_one rand_ahead after_meal after_meal_reachable).
Defined.

Lemma snake_is_a_chain_witness :
  chain [(16, 10); (15, 10)] /\ cardinal (1, 0).
Proof. exact (snake_is_a_chain rand_ahead after_meal after_meal_reachable). Defined.

(** *** What a poll can change *)

Lemma only_vote_refl (g : game) : only_vote_differs g g.
Proof. destruct g; reflexivity. Qed.

Lemma only_vote_set (d : cell) (g : game) :
  only_vote_differs g (set_next_direction d g).
Proof. reflexivity. Qed.

Lemma only_vote_trans (g1 g2 g3 : game) :
  only_vote_differs g1 g2 -> only_vote_differs g2 g3 -> only_vote_differs g1 g3.
Proof.
  unfold only_vote_differs. intros H12 H23. rewrite H23 at 1. rewrite H12.
  reflexivity.
Qed.

Lemma only_vote_fields (g g' : game) :
  only_vote_differs g g' ->
  state g' = state g /\ snake g' = snake g /\ direction g' = direction g /\
  food g' = food g /\ score g' = score g /\ game_over g' = game_over g /\
  frame_count g' = frame_count g /\ rand_used g' = rand_used g /\
  played g' = played g.
Proof. unfold only_vote_differs. intros ->. repeat split. Qed.

Lemma key_vote_only_vote (k : key) (g : game) :
  only_vote_differs g (key_vote k g).
Proof.
  destruct k; unfold key_vote;
    repeat match goal with |- context [if ?b then _ else _] => destruct b end;
    first [apply only_vote_set | apply only_vote_refl].
Qed.

Section PollShape.

Variable rand : nat -> Z.

(** A poll either leaves everything but the pending vote alone, or it
    restarts the game, from a mode other than Playing and from the object
    as the poll found it, and then leaves everything but the vote alone. *)
Lemma handle_events_shape (fuel : nat) (evs : list event) :
  forall g g', handle_events rand fuel evs g = Returns g' ->
    only_vote_differs g g' \/
    (state g <> Playing /\
     exists g1, reset rand fuel (set_state Playing g) = Returns g1 /\
                only_vote_differs g1 g').
Proof.
  induction evs as [|ev evs IH]; intros g g' H; simpl in H.
  - injection H as <-. left. apply only_vote_refl.
  - unbind H as g2 H2. apply handle_event_cases in H2.
    destruct H2 as [g1 [Hr Hk]]. specialize (IH g2 g' H).
    destruct Hr as [->|[Hnp Hr]].
    + destruct Hk as [->|[k [Hp ->]]]; [exact IH|].
      destruct IH as [Hv|[Hnp _]].
      * left. eapply only_vote_trans; [apply key_vote_only_vote | exact Hv].
      * destruct (key_vote_fields k g) as [Hs _]. congruence.
    + right. split; [exact Hnp|]. exists g1. split; [exact Hr|].
      destruct (reset_playing rand fuel g g1 Hr) as [Hp1 _].
      assert (Hv12 : only_vote_differs g1 g2).
      { destruct Hk as [->|[k [_ ->]]];
          [apply only_vote_refl | apply key_vote_only_vote]. }
      destruct IH as [Hv|[Hnp2 _]].
      * eapply only_vote_trans; eassumption.
      * destruct (only_vote_fields g1 g2 Hv12) as [Hs _]. congruence.
Qed.

Lemma handle_input_shape (fuel : nat) (evs : list event) (mouse : cell)
  (g g' : game) :
  handle_input rand fuel evs mouse g = Returns g' ->
  only_vote_differs g g' \/
  (state g <> Playing /\
   exists g1, reset rand fuel (set_state Playing g) = Returns g1 /\
              only_vote_differs g1 g').
Proof.
  unfold handle_input. intros H. unbind H as g2 H2.
  assert (Hv : only_vote_differs g2 g').
  { apply mouse_vote_cases in H.
    destruct H as [[_ ->]|(head & tl & _ & _ & [[_ ->]|[_ ->]])];
      first [apply only_vote_refl | apply only_vote_set]. }
  destruct (handle_events_shape fuel evs g g2 H2) as [H1|(Hnp & g1 & Hr & H1)].
  - left. eapply only_vote_trans; eassumption.
  - right. split; [exact Hnp|]. exists g1. split; [exact Hr|].
    eapply only_vote_trans; eassumption.
Qed.

(** The three ways a step ends: it ends the game, or the snake eats, or
    the snake moves on. *)
Lemma update_outcomes (fuel : nat) (g g' : game) :
  update rand fuel g = Returns g' ->
  (state g' = GameOver /\ game_over g' = true /\
   played g' = DeathTone :: played g /\ score g' = score g /\
   snake g' = snake g) \/
  (state g' = state g /\ game_over g' = game_over g /\
   played g' = EatTone :: played g /\ score g' = score g + 1 /\
   snake g' = food g :: snake g) \/
  (state g' = state g /\ game_over g' = game_over g /\
   played g' = played g /\ score g' = score g /\
   length (snake g') = length (snake g)).
Proof.
  intros H. destruct (snake g) as [|head tl] eqn:Hs.
  - rewrite (update_empty rand fuel g Hs) in H. discriminate.
  - rewrite (update_cases rand fuel g head tl Hs) in H. cbv zeta in H.
    destruct (collides _ _).
    + injection H as <-. left. unfold crashed.
      cbn [state game_over played score snake set_state set_game_over play
           set_direction]. rewrite Hs. repeat split.
    + destruct (cell_eqb_spec (new_head_of head (next_direction g)) (food g))
        as [He|Hne].
      * right; left. apply spawn_food_returns in H.
        destruct H as [(Hst & Hsn & _ & _ & Hsc & Hgo & _ & Hpl) _].
        rewrite Hst, Hsn, Hsc, Hgo, Hpl. unfold grown.
        cbn [state game_over played score snake set_snake set_score play
             set_direction]. rewrite Hs, He. repeat split.
      * right; right. injection H as <-. unfold moved.
        cbn [state game_over played score snake set_snake set_direction].
        rewrite Hs. repeat split.
        assert (Hl := removelast_length
          (new_head_of head (next_direction g) :: head :: tl)
          ltac:(discriminate)).
        cbn [length] in *. lia.
Qed.

End PollShape.

(** *** The program between frames *)

Section ProgramFacts.

Variable rand : nat -> Z.

Lemma reset_vote_ok (fuel : nat) (g g' : game) :
  reset rand fuel g = Returns g' -> vote_ok g'.
Proof.
  intros H. apply reset_returns in H. destruct H as (_ & Hd & Hn & _).
  unfold vote_ok, cardinal, opposite. rewrite Hd, Hn. cbn [fst snd].
  split; [tauto | intros Hx; injection Hx; lia].
Qed.

Lemma update_vote_ok (fuel : nat) (g g' : game) :
  vote_ok g -> update rand fuel g = Returns g' -> vote_ok g'.
Proof.
  intros [Hc _] H. apply update_headings in H. destruct H as [Hd Hn].
  unfold vote_ok. rewrite Hd, Hn.
  split; [exact Hc | apply cardinal_not_self_opposite, Hc].
Qed.

(** A property that [reset] establishes, that votes, the frame counter and
    steps preserve, holds after every frame. *)
Lemma frame_inv (P : game -> Prop) :
  (forall fuel g g', reset rand fuel g = Returns g' -> P g') ->
  (forall k g, P g -> P (key_vote k g)) ->
  (forall d g, P g -> cardinal d -> d <> opposite (direction g) ->
     P (set_next_direction d g)) ->
  (forall c g, P g -> P (set_frame_count c g)) ->
  (forall fuel g g', P g -> update rand fuel g = Returns g' -> P g') ->
  forall fuel evs mouse g r,
    P g -> frame rand fuel evs mouse g = Returns r -> P (snd r).
Proof.
  intros Hreset Hkey Hmouse Hfc Hstep fuel evs mouse g r HP H.
  destruct (handle_input rand fuel evs mouse g) as [g1|e|] eqn:Hin;
    try (unfold frame in H; rewrite Hin in H; discriminate).
  assert (HP1 : P g1)
    by (exact (handle_input_inv rand P Hreset Hkey Hmouse _ _ _ _ _ HP Hin)).
  destruct (frame_cases rand fuel evs mouse g g1 Hin) as (Hnot & Hlt & Hge).
  destruct (mode_eqb_spec (state g1) Playing) as [Hp|Hnp].
  - destruct (Z.lt_ge_cases (frame_count g1 + 1) frames_per_move) as [Hl|Hg].
    + rewrite (Hlt Hp Hl) in H. injection H as <-. cbn [snd]. apply Hfc, HP1.
    + rewrite (Hge Hp Hg) in H. unbind H as g2 H2. injection H as <-. cbn [snd].
      apply (Hstep fuel (set_frame_count 0 g1) g2); [apply Hfc, HP1 | exact H2].
  - rewrite (Hnot Hnp) in H. injection H as <-. exact HP1.
Qed.

Lemma running_inv (P : game -> Prop) :
  (forall fuel g g', reset rand fuel g = Returns g' -> P g') ->
  (forall k g, P g -> P (key_vote k g)) ->
  (forall d g, P g -> cardinal d -> d <> opposite (direction g) ->
     P (set_next_direction d g)) ->
  (forall c g, P g -> P (set_frame_count c g)) ->
  (forall fuel g g', P g -> update rand fuel g = Returns g' -> P g') ->
  forall g, running rand g -> P g.
Proof.
  intros Hreset Hkey Hmouse Hfc Hstep g Hrun.
  induction Hrun as [fuel g H | fuel evs mouse g r _ IH H].
  - exact (Hreset fuel blank g H).
  - exact (frame_inv P Hreset Hkey Hmouse Hfc Hstep _ _ _ _ _ IH H).
Qed.

(** X5.  Between any two frames of the program the board is legal: snake
    and food in the grid, food off the snake, score one less than the
    length, the snake a chain of adjacent and pairwise distinct cells, and
    the pending vote a heading that does not reverse the current one. *)
Theorem running_board_is_legal (g : game) :
  running rand g -> tidy g /\ well_formed g /\ vote_ok g.
Proof.
  apply (running_inv (fun g => tidy g /\ well_formed g /\ vote_ok g)).
  - intros fuel g0 g' H. split; [|split].
    + exact (reset_tidy rand fuel g0 g' H).
    + exact (reset_well_formed rand fuel g0 g' H).
    + exact (reset_vote_ok fuel g0 g' H).
  - intros k g0 (Ht & Hw & Hv). split; [|split].
    + unfold tidy. destruct (key_vote_fields k g0) as (_ & Hsn & Hd & Hf & Hsc & _).
      rewrite Hsn, Hd, Hf, Hsc. exact Ht.
    + unfold well_formed. destruct (key_vote_fields k g0) as [_ [Hsn _]].
      rewrite Hsn. exact Hw.
    + exact (key_vote_ok k g0 Hv).
  - intros d g0 (Ht & Hw & Hv) Hc Hne. split; [exact Ht|]. split; [exact Hw|].
    split; [exact Hc | exact Hne].
  - intros c g0 H. exact H.
  - intros fuel g0 g' (Ht & Hw & Hv) H. split; [|split].
    + exact (update_tidy rand fuel g0 g' Ht (proj1 Hv) H).
    + exact (update_well_formed rand fuel g0 g' Hw H).
    + exact (update_vote_ok fuel g0 g' Hv H).
Qed.

(** X6.  Between any two frames of the program the frame counter lies in
    0..5 and is 0 unless the mode is Playing, the [game_over] flag is set
    exactly in GameOver mode, and while the menu shows no tone has been
    played and the score is 0. *)
Theorem running_clock_and_flag (g : game) :
  running rand g ->
  0 <= frame_count g < 6 /\
  (state g <> Playing -> frame_count g = 0) /\
  (game_over g = true <-> state g = GameOver) /\
  (state g = Menu -> played g = [] /\ score g = 0).
Proof.
  intros Hrun.
  induction Hrun as [fuel g H | fuel evs mouse g r _ IH H].
  - apply reset_returns in H.
    destruct H as (_ & _ & _ & Hsc & Hgo & Hfc & Hst & Hpl & _).
    rewrite Hfc, Hgo, Hst, Hpl, Hsc. cbn [state played blank].
    repeat split; try lia; try discriminate; auto.
  - destruct IH as (Hrange & Hzero & Hflag & Hmenu).
    assert (H6 : frames_per_move = 6) by reflexivity.
    destruct (handle_input rand fuel evs mouse g) as [g1|e|] eqn:Hin;
      try (unfold frame in H; rewrite Hin in H; discriminate).
    assert (H1 : 0 <= frame_count g1 < 6 /\
                 (state g1 <> Playing -> frame_count g1 = 0) /\
                 (game_over g1 = true <-> state g1 = GameOver) /\
                 (state g1 = Menu -> played g1 = [] /\ score g1 = 0)).
    { destruct (handle_input_shape rand fuel evs mouse g g1 Hin)
        as [Hv|(Hnp & g0 & Hr & Hv)].
      - destruct (only_vote_fields g g1 Hv)
          as (Hs & _ & _ & _ & Hsc & Hgo & Hfc & _ & Hpl).
        rewrite Hs, Hsc, Hgo, Hfc, Hpl. auto.
      - destruct (only_vote_fields g0 g1 Hv)
          as (Hs & _ & _ & _ & Hsc & Hgo & Hfc & _ & Hpl).
        apply reset_returns in Hr.
        destruct Hr as (_ & _ & _ & Hsc0 & Hgo0 & Hfc0 & Hst0 & _).
        cbn [state set_state] in Hst0.
        rewrite Hs, Hgo, Hfc, Hfc0, Hgo0, Hst0.
        repeat split; try lia; try discriminate; try congruence. }
    destruct H1 as (Hrange1 & Hzero1 & Hflag1 & Hmenu1).
    destruct (frame_cases rand fuel evs mouse g g1 Hin) as (Hnot & Hlt & Hge).
    destruct (mode_eqb_spec (state g1) Playing) as [Hp|Hnp].
    + destruct (Z.lt_ge_cases (frame_count g1 + 1) frames_per_move) as [Hl|Hg].
      * rewrite (Hlt Hp Hl) in H. injection H as <-.
        cbn [snd state game_over frame_count played score set_frame_count].
        repeat split; try lia; try congruence;
          try (apply Hflag1); try (apply Hmenu1); auto.
      * rewrite (Hge Hp Hg) in H. unbind H as g2 H2. injection H as <-.
        cbn [snd]. pose proof (update_frame_count rand _ _ _ H2) as Hfc2.
        cbn [frame_count set_frame_count] in Hfc2.
        destruct (update_outcomes rand _ _ _ H2)
          as [(Hs & Hgo & _)|[(Hs & Hgo & _)|(Hs & Hgo & _)]];
          cbn [state game_over set_frame_count] in Hs, Hgo;
          rewrite Hfc2, Hs, Hgo;
          repeat split; try lia; try congruence;
            try (intros; apply Hflag1; congruence).
    + rewrite (Hnot Hnp) in H. injection H as <-. cbn [snd]. auto.
Qed.

End ProgramFacts.

(** *** Screens, keys and quitting *)

Section ScreenFacts.

Variable rand : nat -> Z.

Lemma handle_events_app (fuel : nat) (pre post : list event) :
  forall g,
    handle_events rand fuel (pre ++ post) g =
    (g1 <- handle_events rand fuel pre g ;; handle_events rand fuel post g1).
Proof.
  induction pre as [|ev pre IH]; intros g; [reflexivity|].
  cbn [app handle_events].
  destruct (handle_event rand fuel ev g) as [g1|e|]; cbn [bind]; auto.
Qed.

Lemma idle_menu_event (fuel : nat) (ev : event) (g : game) :
  state g = Menu -> idle_in_menu ev = true ->
  handle_event rand fuel ev g = Returns g.
Proof.
  intros Hs Hi. destruct ev; try discriminate.
  unfold handle_event; repeat (cbn [bind]; try rewrite Hs); reflexivity.
Qed.

Lemma idle_over_event (fuel : nat) (ev : event) (g : game) :
  state g = GameOver -> idle_when_over ev = true ->
  handle_event rand fuel ev g = Returns g.
Proof.
  intros Hs Hi. unfold handle_event.
  destruct ev as [|k| |]; try destruct k; try discriminate;
    repeat (cbn [bind]; try rewrite Hs); reflexivity.
Qed.

(** X7.  While the menu shows, a poll that brings no quit event, no key
    and no click, and while the game-over screen shows, a poll that brings
    no quit event and none of the keys y, Return and n, returns the object
    unchanged whatever the pointer does, and the frame calls no [update]:
    the board and the score stay as they were. *)
Theorem idle_screens_are_frozen
  (fuel : nat) (evs : list event) (mouse : cell) (g : game) :
  (state g = Menu /\ forallb idle_in_menu evs = true) \/
  (state g = GameOver /\ forallb idle_when_over evs = true) ->
  handle_input rand fuel evs mouse g = Returns g /\
  frame rand fuel evs mouse g = Returns (false, g).
Proof.
  intros H.
  assert (Hev : handle_events rand fuel evs g = Returns g).
  { induction evs as [|ev evs IH]; [reflexivity|].
    cbn [forallb] in H. cbn [handle_events].
    destruct H as [[Hs Hi]|[Hs Hi]]; apply andb_prop in Hi; destruct Hi as [Hi Hrest].
    - rewrite (idle_menu_event fuel ev g Hs Hi). cbn [bind]. apply IH. auto.
    - rewrite (idle_over_event fuel ev g Hs Hi). cbn [bind]. apply IH. auto. }
  assert (Hnp : state g <> Playing)
    by (destruct H as [[Hs _]|[Hs _]]; congruence).
  assert (Hin : handle_input rand fuel evs mouse g = Returns g).
  { unfold handle_input. rewrite Hev. cbn [bind]. unfold mouse_vote.
    destruct (state g); try reflexivity. congruence. }
  split; [exact Hin|].
  exact (proj1 (frame_cases rand fuel evs mouse g g Hin) Hnp).
Qed.

Lemma first_vote_after_reset (k : key) (g : game) :
  direction g = (1, 0) -> next_direction g = (1, 0) ->
  key_vote k g = set_next_direction (first_vote k) g.
Proof.
  intros Hd Hn.
  assert (Hsame : g = set_next_direction (1, 0) g)
    by (rewrite <- Hn; destruct g; reflexivity).
  destruct k; unfold key_vote, first_vote; try rewrite Hd;
    cbn [fst snd Z.eqb]; first [reflexivity | exact Hsame].
Qed.

(** X8.  The event that starts a game is also read as an in-game event: a
    key pressed on the menu starts the game and, in the same round of the
    event loop, casts its vote on the new snake, so the up and down keys
    (arrows or w/s) leave a turn pending and every other key leaves the
    heading (1, 0); a click starts the game with no vote; y and Return
    restart a finished game with no vote. *)
Theorem start_key_also_votes (fuel : nat) (g g1 : game) :
  state g <> Playing ->
  reset rand fuel (set_state Playing g) = Returns g1 ->
  (state g = Menu ->
     (forall k, handle_event rand fuel (KEYDOWN k) g =
                Returns (set_next_direction (first_vote k) g1)) /\
     handle_event rand fuel MOUSEBUTTONDOWN g = Returns g1) /\
  (state g = GameOver ->
     handle_event rand fuel (KEYDOWN K_y) g = Returns g1 /\
     handle_event rand fuel (KEYDOWN K_RETURN) g = Returns g1 /\
     handle_event rand fuel MOUSEBUTTONDOWN g = Returns g) /\
  state g1 = Playing /\ next_direction g1 = (1, 0).
Proof.
  intros Hnp Hr.
  destruct (reset_playing rand fuel g g1 Hr) as (Hp & _ & Hd & Hn).
  split; [|split; [|split; assumption]].
  - intros Hs. split.
    + intros k. unfold handle_event. cbn [bind]. rewrite Hs, Hr. cbn [bind].
      rewrite Hp. f_equal. apply first_vote_after_reset; assumption.
    + unfold handle_event. cbn [bind]. rewrite Hs, Hr. cbn [bind].
      rewrite Hp. reflexivity.
  - intros Hs. repeat split; unfold handle_event; cbn [bind]; rewrite Hs;
      try rewrite Hr; cbn [bind]; try rewrite Hp; try rewrite Hs; reflexivity.
Qed.

(** X9.  A quit event ends the program from every mode, and so does the n
    key on the game-over screen, as soon as the event loop reaches it: the
    poll raises SystemExit and the events behind it are not read.  While a
    game is played the n key does nothing. *)
Theorem quit_leaves_the_loop
  (fuel : nat) (pre post : list event) (mouse : cell) (g g1 : game) :
  handle_events rand fuel pre g = Returns g1 ->
  handle_input rand fuel (pre ++ QUIT :: post) mouse g = Raises SystemExit /\
  (state g1 = GameOver ->
     handle_input rand fuel (pre ++ KEYDOWN K_n :: post) mouse g =
     Raises SystemExit) /\
  (state g1 = Playing ->
     handle_events rand fuel (pre ++ [KEYDOWN K_n]) g = Returns g1).
Proof.
  intros Hpre. unfold handle_input. rewrite !handle_events_app, Hpre.
  cbn [bind handle_events]. split; [reflexivity|]. split; intros Hs.
  - unfold handle_event. cbn [bind]. rewrite Hs. reflexivity.
  - unfold handle_event. cbn [bind]. rewrite Hs. cbn [bind]. rewrite Hs.
    reflexivity.
Qed.

Lemma handle_events_playing (fuel : nat) (evs : list event) (g g' : game) :
  state g = Playing -> handle_events rand fuel evs g = Returns g' ->
  state g' = Playing.
Proof.
  intros Hp H.
  destruct (handle_events_shape rand fuel evs g g' H) as [Hv|[Hnp _]];
    [|contradiction].
  destruct (only_vote_fields g g' Hv) as [Hs _]. congruence.
Qed.

(** Leaving a screen takes an event that does: from the menu a key or a
    click, from the game-over screen y or Return. *)
Lemma leaving_a_screen (m : mode) (leaves : event -> bool)
  (fuel : nat) (evs : list event) :
  m <> Playing ->
  (forall ev g g', state g = m -> leaves ev = false ->
     handle_event rand fuel ev g = Returns g' -> g' = g) ->
  (forall ev g g', state g = m -> leaves ev = true ->
     handle_event rand fuel ev g = Returns g' -> state g' = Playing) ->
  forall g g', state g = m ->
    handle_events rand fuel evs g = Returns g' ->
    (existsb leaves evs = false /\ g' = g) \/
    (existsb leaves evs = true /\ state g' = Playing).
Proof.
  intros Hm Hstay Hgo.
  induction evs as [|ev evs IH]; intros g g' Hs H; cbn [handle_events] in H.
  - injection H as <-. left. split; reflexivity.
  - unbind H as g2 H2. cbn [existsb]. destruct (leaves ev) eqn:Hl.
    + right. split; [reflexivity|].
      apply (handle_events_playing fuel evs g2 g'); [|exact H].
      exact (Hgo ev g g2 Hs Hl H2).
    + rewrite (Hstay ev g g2 Hs Hl H2) in H. exact (IH g g' Hs H).
Qed.

Lemma event_after_restart (fuel : nat) (ev : event) (g g' : game) :
  handle_event rand fuel ev g = Returns g' ->
  g' = g \/ state g' = Playing.
Proof.
  intros H. apply handle_event_cases in H.
  destruct H as [g1 [Hr Hk]].
  destruct Hk as [->|[k [Hp ->]]].
  - destruct Hr as [->|[_ Hr]]; [left; reflexivity|].
    right. exact (proj1 (reset_playing rand fuel g g1 Hr)).
  - right. destruct (key_vote_fields k g1) as [Hs _]. congruence.
Qed.

Lemma menu_event (fuel : nat) (ev : event) (g g' : game) :
  state g = Menu -> handle_event rand fuel ev g = Returns g' ->
  (starts ev = false -> g' = g) /\ (starts ev = true -> state g' = Playing).
Proof.
  intros Hs H. split; intros Hl.
  - destruct ev; try discriminate; unfold handle_event, _quit in H;
      repeat (cbn [bind] in H; try rewrite Hs in H); congruence.
  - destruct (event_after_restart fuel ev g g' H) as [->|Hp]; [|exact Hp].
    exfalso. destruct ev as [|k| |]; try discriminate;
      unfold handle_event in H; cbn [bind] in H; rewrite Hs in H;
      unbind H as g1 H1;
      destruct (reset_playing rand fuel g g1 H1) as [Hp1 _];
      rewrite Hp1 in H; injection H as H;
      apply (f_equal state) in H;
      rewrite ?(proj1 (key_vote_fields _ _)) in H; congruence.
Qed.

Lemma over_event (fuel : nat) (ev : event) (g g' : game) :
  state g = GameOver -> handle_event rand fuel ev g = Returns g' ->
  (restarts ev = false -> g' = g) /\ (restarts ev = true -> state g' = Playing).
Proof.
  intros Hs H. split; intros Hl.
  - destruct ev as [|k| |]; try destruct k; try discriminate;
      unfold handle_event, _quit in H;
      repeat (cbn [bind] in H; try rewrite Hs in H); congruence.
  - destruct (event_after_restart fuel ev g g' H) as [->|Hp]; [|exact Hp].
    exfalso. destruct ev as [|k| |]; try destruct k; try discriminate;
      unfold handle_event in H; cbn [bind] in H; rewrite Hs in H;
      unbind H as g1 H1;
      destruct (reset_playing rand fuel g g1 H1) as [Hp1 _];
      rewrite Hp1 in H; injection H as H;
      apply (f_equal state) in H;
      rewrite ?(proj1 (key_vote_fields _ _)) in H; congruence.
Qed.

(** X10.  The modes change as the transition table says.  A frame that
    begins on the menu ends on the menu or in Playing, in Playing exactly
    when the poll brings a key or a click; a frame that begins on the
    game-over screen ends there or in Playing, in Playing exactly when the
    poll brings y or Return; neither calls [update].  A frame that begins
    in Playing ends in Playing, or in GameOver after an [update]; no frame
    leads back to the menu. *)
Theorem frame_mode_transitions
  (fuel : nat) (evs : list event) (mouse : cell) (g : game) (r : bool * game) :
  frame rand fuel evs mouse g = Returns r ->
  (state g = Menu ->
     fst r = false /\
     (state (snd r) = Menu \/ state (snd r) = Playing) /\
     (state (snd r) = Playing <-> existsb starts evs = true)) /\
  (state g = GameOver ->
     fst r = false /\
     (state (snd r) = GameOver \/ state (snd r) = Playing) /\
     (state (snd r) = Playing <-> existsb restarts evs = true)) /\
  (state g = Playing ->
     state (snd r) = Playing \/ (fst r = true /\ state (snd r) = GameOver)) /\
  (state (snd r) = Menu -> state g = Menu).
Proof.
  intros H.
  assert (H6 : frames_per_move = 6) by reflexivity.
  destruct (handle_input rand fuel evs mouse g) as [g1|e|] eqn:Hin;
    try (unfold frame in H; rewrite Hin in H; discriminate).
  destruct (frame_cases rand fuel evs mouse g g1 Hin) as (Hnot & Hlt & Hge).
  pose proof Hin as Hin'. unfold handle_input in Hin'. unbind Hin' as g0 Hev.
  assert (Hs01 : state g1 = state g0).
  { apply mouse_vote_cases in Hin'.
    destruct Hin' as [[_ ->]|(head & tl & _ & _ & [[_ ->]|[_ ->]])]; reflexivity. }
  assert (Hscreen : forall m leaves,
    m <> Playing -> state g = m ->
    (existsb leaves evs = false /\ g0 = g) \/
    (existsb leaves evs = true /\ state g0 = Playing) ->
    fst r = false /\
    (state (snd r) = m \/ state (snd r) = Playing) /\
    (state (snd r) = Playing <-> existsb leaves evs = true)).
  { intros m leaves Hm Hs [[He Heq]|[He Hp0]].
    - subst g0. rewrite (Hnot ltac:(congruence)) in H. injection H as <-.
      cbn [fst snd]. rewrite Hs01, He, Hs.
      repeat split; auto; intros; congruence.
    - assert (Hp1 : state g1 = Playing) by congruence.
      assert (Hfc : frame_count g1 = 0).
      { destruct (handle_input_track rand _ _ _ _ _ Hin) as [(Hx & _)|(_ & _ & Hf)];
          [congruence | exact Hf]. }
      rewrite (Hlt Hp1 ltac:(lia)) in H. injection H as <-.
      cbn [fst snd state set_frame_count]. rewrite He. repeat split; auto. }
  assert (Hplaying : state g = Playing ->
    state (snd r) = Playing \/ (fst r = true /\ state (snd r) = GameOver)).
  { intros Hs.
    assert (Hp1 : state g1 = Playing)
      by (rewrite Hs01; exact (handle_events_playing fuel evs g g0 Hs Hev)).
    destruct (Z.lt_ge_cases (frame_count g1 + 1) frames_per_move) as [Hl|Hg].
    - rewrite (Hlt Hp1 Hl) in H. injection H as <-. left. exact Hp1.
    - rewrite (Hge Hp1 Hg) in H. unbind H as g2 H2. injection H as <-.
      cbn [fst snd].
      destruct (update_outcomes rand _ _ _ H2)
        as [(Hx & _)|[(Hx & _)|(Hx & _)]]; cbn [state set_frame_count] in Hx;
        [right; auto | left; congruence | left; congruence]. }
  assert (Hmenu : state g = Menu ->
     fst r = false /\
     (state (snd r) = Menu \/ state (snd r) = Playing) /\
     (state (snd r) = Playing <-> existsb starts evs = true)).
  { intros Hs. apply Hscreen; [discriminate | exact Hs |].
    apply (leaving_a_screen Menu starts fuel evs ltac:(discriminate)); auto.
    - intros ev x x' Hx Hl Hx'. exact (proj1 (menu_event fuel ev x x' Hx Hx') Hl).
    - intros ev x x' Hx Hl Hx'. exact (proj2 (menu_event fuel ev x x' Hx Hx') Hl). }
  assert (Hover : state g = GameOver ->
     fst r = false /\
     (state (snd r) = GameOver \/ state (snd r) = Playing) /\
     (state (snd r) = Playing <-> existsb restarts evs = true)).
  { intros Hs. apply Hscreen; [discriminate | exact Hs |].
    apply (leaving_a_screen GameOver restarts fuel evs ltac:(discriminate)); auto.
    - intros ev x x' Hx Hl Hx'. exact (proj1 (over_event fuel ev x x' Hx Hx') Hl).
    - intros ev x x' Hx Hl Hx'. exact (proj2 (over_event fuel ev x x' Hx Hx') Hl). }
  split; [exact Hmenu|]. split; [exact Hover|]. split; [exact Hplaying|].
  intros Hend. destruct (state g) eqn:Hs; [reflexivity| |].
  - destruct (Hplaying eq_refl) as [Hx|[_ Hx]]; congruence.
  - destruct (Hover eq_refl) as (_ & [Hx|Hx] & _); congruence.
Qed.

End ScreenFacts.

(** *** Food placement, tones, the tail, restarts *)

Lemma last_in {A : Type} (l : list A) (d : A) : l <> [] -> In (last l d) l.
Proof.
  induction l as [|a l IH]; [congruence|]. intros _.
  destruct l as [|b l]; [left; reflexivity|].
  right. apply IH. discriminate.
Qed.

Section FoodFacts.

Variable rand : nat -> Z.

(** [spawn_food], round by round: it stops at the first round whose draw is
    off the snake, having used two values per round. *)
Lemma spawn_food_first_free (fuel : nat) :
  forall g,
    spawn_food rand fuel g =
    match first_free rand fuel (snake g) (rand_used g) with
    | Some j =>
        Returns (set_food (draw rand (rand_used g + 2 * j))
                   (set_rand_used (rand_used g + 2 * S j) g))
    | None => OutOfFuel
    end.
Proof.
  induction fuel as [|fuel IH]; intros g; [reflexivity|].
  rewrite spawn_food_S. cbn [first_free].
  destruct (mem (draw rand (rand_used g)) (snake g)); cbn [negb].
  - rewrite IH. cbn [snake rand_used set_rand_used].
    destruct (first_free rand fuel (snake g) (S (S (rand_used g)))) as [j|];
      cbn [option_map]; [|reflexivity].
    replace (S (S (rand_used g)) + 2 * j)%nat
      with (rand_used g + 2 * S j)%nat by lia.
    replace (S (S (rand_used g)) + 2 * S j)%nat
      with (rand_used g + 2 * S (S j))%nat by lia.
    reflexivity.
  - replace (rand_used g + 2 * 0)%nat with (rand_used g) by lia.
    replace (rand_used g + 2 * 1)%nat with (S (S (rand_used g))) by lia.
    reflexivity.
Qed.

Lemma first_free_some (fuel : nat) (body : list cell) :
  forall k j, first_free rand fuel body k = Some j ->
    (j < fuel)%nat /\
    ~ In (draw rand (k + 2 * j)) body /\
    forall i, (i < j)%nat -> In (draw rand (k + 2 * i)) body.
Proof.
  induction fuel as [|fuel IH]; intros k j H; [discriminate|].
  cbn [first_free] in H. destruct (mem (draw rand k) body) eqn:Hm.
  - destruct (first_free rand fuel body (S (S k))) as [j'|] eqn:Hf;
      [|discriminate].
    injection H as <-. destruct (IH _ _ Hf) as (Hlt & Hfree & Hbusy).
    split; [lia|]. split.
    + replace (k + 2 * S j')%nat with (S (S k) + 2 * j')%nat by lia. exact Hfree.
    + intros [|i] Hi.
      * replace (k + 2 * 0)%nat with k by lia. apply mem_spec, Hm.
      * replace (k + 2 * S i)%nat with (S (S k) + 2 * i)%nat by lia.
        apply Hbusy. lia.
  - injection H as <-. split; [lia|]. split.
    + replace (k + 2 * 0)%nat with k by lia. apply mem_false, Hm.
    + intros i Hi. lia.
Qed.

Lemma first_free_found (j : nat) (body : list cell) :
  forall fuel k,
    (j < fuel)%nat ->
    ~ In (draw rand (k + 2 * j)) body ->
    (forall i, (i < j)%nat -> In (draw rand (k + 2 * i)) body) ->
    first_free rand fuel body k = Some j.
Proof.
  induction j as [|j IH]; intros fuel k Hlt Hfree Hbusy;
    (destruct fuel as [|fuel]; [lia|]); cbn [first_free].
  - replace (k + 2 * 0)%nat with k in Hfree by lia.
    apply mem_false in Hfree. rewrite Hfree. reflexivity.
  - assert (Hm : mem (draw rand k) body = true).
    { apply mem_spec. specialize (Hbusy 0%nat ltac:(lia)).
      replace (k + 2 * 0)%nat with k in Hbusy by lia. exact Hbusy. }
    rewrite Hm. rewrite (IH fuel (S (S k))); [reflexivity | lia | |].
    + replace (S (S k) + 2 * j)%nat with (k + 2 * S j)%nat by lia. exact Hfree.
    + intros i Hi. replace (S (S k) + 2 * i)%nat with (k + 2 * S i)%nat by lia.
      apply Hbusy. lia.
Qed.

(** X11.  [spawn_food] resamples until success: when it returns, the food
    is the draw of the first round whose cell is off the snake, every
    earlier round drew a snake cell, two random values were used per round,
    and nothing else in the object changed; and it does return, with that
    object, as soon as the loop is given one round more than it needs. *)
Theorem food_is_first_free_draw :
  (forall fuel g g', spawn_food rand fuel g = Returns g' ->
     exists j, (j < fuel)%nat /\
       (forall i, (i < j)%nat -> In (draw rand (rand_used g + 2 * i)) (snake g)) /\
       ~ In (draw rand (rand_used g + 2 * j)) (snake g) /\
       g' = set_food (draw rand (rand_used g + 2 * j))
              (set_rand_used (rand_used g + 2 * S j) g)) /\
  (forall j fuel g,
     (j < fuel)%nat ->
     (forall i, (i < j)%nat -> In (draw rand (rand_used g + 2 * i)) (snake g)) ->
     ~ In (draw rand (rand_used g + 2 * j)) (snake g) ->
     spawn_food rand fuel g =
     Returns (set_food (draw rand (rand_used g + 2 * j))
                (set_rand_used (rand_used g + 2 * S j) g))).
Proof.
  split.
  - intros fuel g g' H. rewrite spawn_food_first_free in H.
    destruct (first_free rand fuel (snake g) (rand_used g)) as [j|] eqn:Hf;
      [|discriminate].
    injection H as <-. destruct (first_free_some _ _ _ _ Hf) as (Hlt & Hfree & Hbusy).
    exists j. auto.
  - intros j fuel g Hlt Hbusy Hfree. rewrite spawn_food_first_free.
    rewrite (first_free_found j (snake g) fuel (rand_used g) Hlt Hfree Hbusy).
    reflexivity.
Qed.

Lemma spawn_food_full (fuel : nat) :
  forall g, (forall p, in_grid p = true -> In p (snake g)) ->
    spawn_food rand fuel g = OutOfFuel.
Proof.
  induction fuel as [|fuel IH]; intros g Hfull; [reflexivity|].
  rewrite spawn_food_S.
  assert (Hm : mem (draw rand (rand_used g)) (snake g) = true)
    by (apply mem_spec, Hfull, draw_in_grid).
  rewrite Hm. cbn [negb]. apply IH. exact Hfull.
Qed.

(** X12.  On a grid the snake fills, the loop of [spawn_food] never ends,
    whatever the generator hands out and however many rounds it is given;
    so the step that eats the food on the last free cell never returns
    either. *)
Theorem full_grid_never_gets_food :
  (forall g, (forall p, in_grid p = true -> In p (snake g)) ->
     forall fuel, spawn_food rand fuel g = OutOfFuel) /\
  (forall g head tl,
     snake g = head :: tl ->
     new_head_of head (next_direction g) = food g ->
     in_grid (food g) = true -> ~ In (food g) (snake g) ->
     (forall p, in_grid p = true -> p = food g \/ In p (snake g)) ->
     forall fuel, update rand fuel g = OutOfFuel).
Proof.
  split.
  - intros g Hfull fuel. exact (spawn_food_full fuel g Hfull).
  - intros g head tl Hs He Hin Hoff Hfull fuel.
    rewrite (update_cases rand fuel g head tl Hs). cbv zeta.
    assert (Hc : collides (new_head_of head (next_direction g)) (snake g) = false)
      by (apply collides_false; rewrite He; auto).
    rewrite Hc, He, cell_eqb_refl. apply spawn_food_full.
    intros p Hp. unfold grown; cbn [snake set_snake set_score play set_direction].
    destruct (Hfull p Hp) as [->|Hsn]; [left; reflexivity | right; exact Hsn].
Qed.

(** X13.  A step plays at most one tone: none, or the eat tone, or the
    death tone.  It plays the eat tone exactly when it raises the score,
    and, in a game that is being played, the death tone exactly when it
    ends the game. *)
Theorem step_plays_at_most_one_tone (fuel : nat) (g g' : game) :
  update rand fuel g = Returns g' ->
  (played g' = played g \/ played g' = EatTone :: played g \/
   played g' = DeathTone :: played g) /\
  (played g' = EatTone :: played g <-> score g' = score g + 1) /\
  (state g = Playing ->
     (played g' = DeathTone :: played g <-> state g' = GameOver)).
Proof.
  intros H.
  assert (Hne : forall (t : tone) l, t :: l <> l).
  { intros t l Hx. apply (f_equal (@length tone)) in Hx. cbn [length] in Hx. lia. }
  destruct (update_outcomes rand fuel g g' H)
    as [(Hs & _ & Hp & Hsc & _)|[(Hs & _ & Hp & Hsc & _)|(Hs & _ & Hp & Hsc & _)]];
    rewrite Hp, Hsc, Hs.
  - split; [auto|]. split; [split; [congruence | lia]|].
    intros _; split; auto.
  - split; [auto|]. split; [split; auto|].
    intros Hpl; split; [congruence|]. intros Hx. congruence.
  - split; [auto|]. split.
    + split; [intros Hx; symmetry in Hx; apply Hne in Hx; contradiction | lia].
    + intros Hpl; split;
        [intros Hx; symmetry in Hx; apply Hne in Hx; contradiction | congruence].
Qed.

(** X14.  Turning the head onto the cell of the tail ends the game, although
    the tail would have left that cell in the same step: [update] tests the
    new head against the snake before it removes the tail. *)
Theorem chasing_the_tail_is_fatal
  (fuel : nat) (g : game) (head : cell) (tl : list cell) :
  snake g = head :: tl -> tl <> [] ->
  new_head_of head (next_direction g) = last tl head ->
  update rand fuel g = Returns (crashed g) /\
  state (crashed g) = GameOver /\ snake (crashed g) = snake g.
Proof.
  intros Hs Htl Hlast. rewrite (update_cases rand fuel g head tl Hs). cbv zeta.
  assert (Hc : collides (new_head_of head (next_direction g)) (snake g) = true).
  { apply collides_true. right. rewrite Hs, Hlast. right. apply last_in, Htl. }
  rewrite Hc. repeat split.
Qed.

Lemma reset_formula (fuel : nat) (g : game) :
  reset rand fuel g =
  match first_free rand fuel [(grid_width / 2, grid_height / 2)] (rand_used g) with
  | Some j =>
      Returns (mkGame (state g) [(grid_width / 2, grid_height / 2)] (1, 0) (1, 0)
                 (draw rand (rand_used g + 2 * j)) 0 false 0
                 (rand_used g + 2 * S j) (played g))
  | None => OutOfFuel
  end.
Proof.
  unfold reset. rewrite spawn_food_first_free.
  cbn [snake rand_used set_snake set_direction set_next_direction].
  destruct (first_free rand fuel _ (rand_used g)); reflexivity.
Qed.

(** X15.  A new game carries nothing over from the old one: what [reset]
    returns depends on the object it is given only through the mode, the
    position of the random generator and the tones played so far, not
    through the old snake, direction, vote, food, score, flag or frame
    counter. *)
Theorem reset_forgets_the_old_game (fuel : nat) (g1 g2 : game) :
  state g1 = state g2 -> rand_used g1 = rand_used g2 -> played g1 = played g2 ->
  reset rand fuel g1 = reset rand fuel g2.
Proof.
  intros Hs Hr Hp. rewrite !reset_formula, Hs, Hr, Hp. reflexivity.
Qed.

End FoodFacts.

(** *** The statements at sample runs *)

Lemma first_frame_done_running : running rand0 first_frame_done.
Proof.
  apply (running_frame rand0 1 [MOUSEBUTTONDOWN] (600, 210) at_menu
           (false, first_frame_done)).
  - apply (running_boot rand0 1). reflexivity.
  - reflexivity.
Qed.

Lemma running_board_is_legal_witness :
  tidy first_frame_done /\ well_formed first_frame_done /\
  vote_ok first_frame_done.
Proof.
  exact (running_board_is_legal rand0 first_frame_done first_frame_done_running).
Defined.

Lemma running_clock_and_flag_witness :
  0 <= frame_count first_frame_done < 6 /\
  (game_over first_frame_done = true <-> state first_frame_done = GameOver).
Proof.
  destruct (running_clock_and_flag rand0 first_frame_done first_frame_done_running)
    as (Hrange & _ & Hflag & _).
  exact (conj Hrange Hflag).
Defined.

Lemma idle_screens_are_frozen_witness :
  frame rand0 0 [MOUSEBUTTONDOWN; KEYDOWN K_UP; OtherEvent] (0, 0)
    (crashed top_row_turn) = Returns (false, crashed top_row_turn) /\
  frame rand0 0 [OtherEvent] (300, 200) at_menu = Returns (false, at_menu).
Proof.
  split.
  - exact (proj2 (idle_screens_are_frozen rand0 0
             [MOUSEBUTTONDOWN; KEYDOWN K_UP; OtherEvent] (0, 0)
             (crashed top_row_turn) (or_intror (conj eq_refl eq_refl)))).
  - exact (proj2 (idle_screens_are_frozen rand0 0 [OtherEvent] (300, 200)
             at_menu (or_introl (conj eq_refl eq_refl)))).
Defined.

Lemma start_key_also_votes_witness :
  handle_event rand0 1 (KEYDOWN K_UP) at_menu =
    Returns (set_next_direction (0, -1) (set_frame_count 0 first_frame_done)) /\
  handle_event rand0 1 (KEYDOWN K_LEFT) at_menu =
    Returns (set_next_direction (1, 0) (set_frame_count 0 first_frame_done)).
Proof.
  destruct (start_key_also_votes rand0 1 at_menu
              (set_frame_count 0 first_frame_done)
              ltac:(discriminate) eq_refl) as (Hmenu & _).
  destruct (Hmenu eq_refl) as [Hkey _].
  exact (conj (Hkey K_UP) (Hkey K_LEFT)).
Defined.

Lemma quit_leaves_the_loop_witness :
  handle_input rand0 0 ([KEYDOWN K_UP] ++ QUIT :: [KEYDOWN K_DOWN]) (0, 0)
    just_started = Raises SystemExit /\
  handle_events rand0 0 ([KEYDOWN K_UP] ++ [KEYDOWN K_n]) just_started =
    Returns (set_next_direction (0, -1) just_started).
Proof.
  destruct (quit_leaves_the_loop rand0 0 [KEYDOWN K_UP] [KEYDOWN K_DOWN] (0, 0)
              just_started (set_next_direction (0, -1) just_started) eq_refl)
    as (Hquit & _ & Hn).
  exact (conj Hquit (Hn eq_refl)).
Defined.

Lemma frame_mode_transitions_witness :
  state first_frame_done = Playing <-> existsb starts [MOUSEBUTTONDOWN] = true.
Proof.
  destruct (frame_mode_transitions rand0 1 [MOUSEBUTTONDOWN] (600, 210) at_menu
              (false, first_frame_done) eq_refl) as (Hmenu & _).
  exact (proj2 (proj2 (Hmenu eq_refl))).
Defined.

Lemma food_is_first_free_draw_witness :
  spawn_food rand_ahead 2 (set_snake [(16, 10)] blank) =
  Returns (set_food (3, 3) (set_rand_used 4 (set_snake [(16, 10)] blank))).
Proof.
  refine (proj2 (food_is_first_free_draw rand_ahead) 1%nat 2%nat
            (set_snake [(16, 10)] blank) ltac:(lia) _ _).
  - intros i Hi. assert (i = 0)%nat as -> by lia. left. reflexivity.
  - apply not_on_singleton. reflexivity.
Defined.

Lemma full_grid_never_gets_food_witness :
  spawn_food rand0 1000 grid_full = OutOfFuel /\
  update rand0 1000 last_free_cell = OutOfFuel.
Proof.
  destruct (full_grid_never_gets_food rand0) as [Hfull Hlast].
  split.
  - apply Hfull. exact in_grid_all_cells.
  - apply (Hlast last_free_cell (0, 1) (tl (tl all_cells)));
      try reflexivity.
    + apply mem_false. vm_compute. reflexivity.
    + intros p Hp. pose proof (in_grid_all_cells p Hp) as Hin.
      change all_cells with ((0, 0) :: tl all_cells) in Hin.
      destruct Hin as [<-|Hin]; [left; reflexivity | right; exact Hin].
Defined.

Lemma step_plays_at_most_one_tone_witness :
  played after_meal = EatTone :: played food_ahead <->
  score after_meal = score food_ahead + 1.
Proof.
  exact (proj1 (proj2 (step_plays_at_most_one_tone rand_ahead 1 food_ahead
                         after_meal eq_refl))).
Defined.

Lemma chasing_the_tail_is_fatal_witness :
  update rand0 0 tail_chase = Returns (crashed tail_chase).
Proof.
  exact (proj1 (chasing_the_tail_is_fatal rand0 0 tail_chase (1, 0)
                  [(0, 0); (0, 1); (1, 1)] eq_refl ltac:(discriminate) eq_refl)).
Defined.

Lemma reset_forgets_the_old_game_witness :
  reset rand0 1 (set_state Playing (crashed top_row_turn)) =
  reset rand0 1
    (mkGame Playing (snake tail_chase) (0, 1) (0, 1) (5, 5) 3 true 5 4 [DeathTone]).
Proof.
  exact (reset_forgets_the_old_game rand0 1
           (set_state Playing (crashed top_row_turn))
           (mkGame Playing (snake tail_chase) (0, 1) (0, 1) (5, 5) 3 true 5 4
              [DeathTone])
           eq_refl eq_refl eq_refl).
Defined.

(** * More properties of the synthesizer *)

Lemma store_h_range (v w : Z) :
  store_h v = Returns w -> w = v /\ -32768 <= w <= 32767.
Proof.
  unfold store_h. intros Hw.
  destruct (Z.leb_spec (-32768) v), (Z.leb_spec v 32767); cbn [andb] in Hw;
    try discriminate. injection Hw as <-. lia.
Qed.

Lemma py_int_zero_or_nan (x : float) (n : Z) :
  zero_or_nan x = true -> py_int x = Returns n -> n = 0.
Proof. destruct x; simpl; intros Hx H; try discriminate; congruence. Qed.

Lemma not_finite_raises (x : float) :
  is_finite x = false ->
  py_round x = Raises (error_of x) /\ py_int x = Raises (error_of x).
Proof. destruct x; simpl; intros H; try discriminate; split; reflexivity. Qed.

Section BufferFacts.

Variable libm_sin : float -> float.

(** The value a round of the loop stores fits the 16-bit slot. *)
Lemma sample_fits (freq : Z) (duration : float) (shape : String.string)
  (decay : bool) (sample_rate max_amp i v : Z) :
  sample libm_sin freq duration shape decay sample_rate max_amp i = Returns v ->
  -32768 <= v <= 32767.
Proof.
  unfold sample. intros H.
  apply bind_returns in H. destruct H as [fi [_ H]].
  apply bind_returns in H. destruct H as [sr [_ H]].
  apply bind_returns in H. destruct H as [t [_ H]].
  apply bind_returns in H. destruct H as [cf [_ H]].
  apply bind_returns in H. destruct H as [val [_ H]].
  apply store_h_range in H. apply H.
Qed.

Lemma fill_Forall (P : Z -> Prop) freq duration shape decay sample_rate max_amp :
  (forall i v,
     sample libm_sin freq duration shape decay sample_rate max_amp i = Returns v ->
     P v) ->
  forall count i buf,
    fill libm_sin freq duration shape decay sample_rate max_amp i count =
      Returns buf ->
    Forall P buf.
Proof.
  intros HP. induction count as [|count IH]; intros i buf H; cbn [fill] in H.
  - injection H as <-. constructor.
  - unbind H as v Hv. unbind H as rest Hrest. injection H as <-.
    constructor; [exact (HP i v Hv) | exact (IH _ _ Hrest)].
Qed.

(** X16.  A buffer that [_make_sound] returns has [n_samples] samples when
    that number is positive and none otherwise, and each sample is a signed
    16-bit value. *)
Theorem buffer_length_and_width
  (freq : Z) (duration volume : float) (shape : String.string) (decay : bool)
  (sample_rate : Z) (buf : list Z) :
  _make_sound libm_sin freq duration volume shape decay sample_rate = Returns buf ->
  exists n, n_samples_of duration sample_rate = Returns n /\
            length buf = Z.to_nat n /\
            Forall (fun v => -32768 <= v <= 32767) buf.
Proof.
  intros H. apply make_sound_returns in H.
  destruct H as (n & a & Hn & _ & Ha & H0).
  exists n. split; [exact Hn|]. split.
  - exact (fill_length _ _ _ _ _ _ _ _ _ _ H0).
  - apply (fill_Forall _ freq duration shape decay sample_rate a)
      with (count := Z.to_nat n) (i := 0); [|exact H0].
    intros i v. apply sample_fits.
Qed.

(** X17.  Every sample of a square buffer is the peak
    [max_amp = int(32767 * volume)] or its negative. *)
Theorem square_buffer_is_two_valued
  (freq : Z) (duration volume : float) (decay : bool) (sample_rate : Z)
  (buf : list Z) :
  _make_sound libm_sin freq duration volume "square" decay sample_rate =
    Returns buf ->
  exists max_amp, max_amp_of volume = Returns max_amp /\
                  Forall (fun v => v = max_amp \/ v = - max_amp) buf.
Proof.
  intros H. apply make_sound_returns in H.
  destruct H as (n & a & _ & _ & Ha & H).
  exists a. split; [exact Ha|].
  apply (fill_Forall _ freq duration "square" decay sample_rate a)
    with (count := Z.to_nat n) (i := 0); [|exact H].
  intros i v. apply square_sample_values.
Qed.

(** X18.  At volume zero every buffer that is returned is silent: all its
    samples are 0, for every shape. *)
Theorem zero_volume_is_silence
  (freq : Z) (duration volume : float) (shape : String.string) (decay : bool)
  (sample_rate : Z) (buf : list Z) :
  is_zero volume = true ->
  _make_sound libm_sin freq duration volume shape decay sample_rate = Returns buf ->
  max_amp_of volume = Returns 0 /\ Forall (fun v => v = 0) buf.
Proof.
  intros Hz H.
  assert (Ha : max_amp_of volume = Returns 0)
    by (destruct volume as [[|]| | |]; try discriminate; reflexivity).
  split; [exact Ha|].
  apply make_sound_returns in H.
  destruct H as (n & a & _ & _ & Ha' & H).
  rewrite Ha in Ha'. injection Ha' as <-.
  apply (fill_Forall _ freq duration shape decay sample_rate 0)
    with (count := Z.to_nat n) (i := 0); [|exact H].
  clear. intros i v H. unfold sample in H.
  apply bind_returns in H. destruct H as [fi [_ H]].
  apply bind_returns in H. destruct H as [sr [_ H]].
  apply bind_returns in H. destruct H as [t [_ H]].
  apply bind_returns in H. destruct H as [cf [_ H]].
  unbind H as val Hval. apply store_h_value in H. subst v.
  change (float_of_int 0) with (Returns (S754_zero false)) in Hval.
  destruct (is_square shape).
  - apply bind_returns in Hval. destruct Hval as [x [_ Hval]].
    apply bind_returns in Hval. destruct Hval as [sn [_ Hval]].
    injection Hval as <-. destruct (gt0 sn); reflexivity.
  - destruct (is_sawtooth shape).
    + apply bind_returns in Hval. destruct Hval as [k [_ Hval]].
      apply bind_returns in Hval. destruct Hval as [kf [_ Hval]].
      apply bind_returns in Hval. destruct Hval as [two [_ Hval]].
      cbn [bind] in Hval.
      apply py_int_zero_or_nan in Hval; [exact Hval|].
      apply fmul_zero_or_nan_l. reflexivity.
    + apply bind_returns in Hval. destruct Hval as [x [_ Hval]].
      apply bind_returns in Hval. destruct Hval as [sn [_ Hval]].
      cbn [bind] in Hval.
      apply py_int_zero_or_nan in Hval; [exact Hval|].
      apply fmul_zero_or_nan_l. reflexivity.
Qed.

End BufferFacts.

(** ** The count and the range of the samples *)



Section CountAndRange.

Variable libm_sin : float -> float.


End CountAndRange.



(** ** The loop, round by round *)

(** Two loops whose bodies agree at each index give the same buffer, or
    fail alike. *)
Lemma fill_ext l1 l2 f1 f2 d1 d2 shape1 shape2 decay1 decay2 rate1 rate2 a1 a2 :
  forall count i,
    (forall j, i <= j < i + Z.of_nat count ->
       sample l1 f1 d1 shape1 decay1 rate1 a1 j =
       sample l2 f2 d2 shape2 decay2 rate2 a2 j) ->
    fill l1 f1 d1 shape1 decay1 rate1 a1 i count =
    fill l2 f2 d2 shape2 decay2 rate2 a2 i count.
Proof.
  induction count as [|count IH]; intros i H; [reflexivity|].
  cbn [fill]. rewrite (H i) by lia. rewrite (IH (i + 1)); [reflexivity|].
  intros j Hj. apply H. lia.
Qed.

(** A loop that returns has returned at each shorter count, with the
    samples it had stored by then. *)
Lemma fill_prefix l f d shape decay rate a :
  forall n k i buf, (k <= n)%nat ->
    fill l f d shape decay rate a i n = Returns buf ->
    fill l f d shape decay rate a i k = Returns (firstn k buf).
Proof.
  induction n as [|n IH]; intros k i buf Hk H.
  - assert (k = 0%nat) by lia. subst k. reflexivity.
  - destruct k as [|k]; [reflexivity|].
    cbn [fill] in *. unbind H as v Hv. unbind H as rest Hrest.
    injection H as <-. rewrite Hv. cbn [bind].
    rewrite (IH k (i + 1) rest ltac:(lia) Hrest). reflexivity.
Qed.

(** The loop returns when each of its rounds does. *)
Lemma fill_total (P : Z -> Prop) l f d shape decay rate a :
  forall count i,
    (forall j, i <= j < i + Z.of_nat count ->
       exists v, sample l f d shape decay rate a j = Returns v /\ P v) ->
    exists buf, fill l f d shape decay rate a i count = Returns buf /\
                length buf = count /\ Forall P buf.
Proof.
  induction count as [|count IH]; intros i H.
  - exists []. repeat split. constructor.
  - destruct (H i ltac:(lia)) as [v [Hv HP]].
    destruct (IH (i + 1)) as [rest [Hrest [Hlen Hall]]].
    { intros j Hj. apply H. lia. }
    exists (v :: rest). cbn [fill]. rewrite Hv. cbn [bind]. rewrite Hrest.
    cbn [bind length]. repeat split; [congruence | constructor; assumption].
Qed.

Lemma at_each_index_spec {A : Type} (body : Z -> outcome A) (ok : A -> bool) :
  forall count i,
    at_each_index body ok i count = true ->
    forall j, i <= j < i + Z.of_nat count ->
      exists v, body j = Returns v /\ ok v = true.
Proof.
  induction count as [|count IH]; intros i H j Hj; [lia|].
  cbn [at_each_index] in H.
  destruct (body i) as [v| |] eqn:Hb; try discriminate.
  destruct (ok v) eqn:Hok; try discriminate.
  destruct (Z.eq_dec j i) as [-> | Hne]; [eauto|].
  apply (IH (i + 1)); [exact H | lia].
Qed.

(** The square branch, once the phase is there: [math.sin] accepts every
    float but the infinities, and the value stored is the peak or its
    negative. *)
Lemma square_sample_of_phase l f d decay rate a i x :
  phase_at f d decay rate i = Returns x -> not_infinity x = true ->
  -32767 <= a <= 32767 ->
  sample l f d "square" decay rate a i = Returns (if gt0 (l x) then a else - a).
Proof.
  unfold phase_at, sample. intros H Hx Ha.
  unbind H as fi Hfi. unbind H as sr Hsr. unbind H as t Ht. unbind H as cf Hcf.
  rewrite Hfi. cbn [bind]. rewrite Hsr. cbn [bind]. rewrite Ht. cbn [bind].
  rewrite Hcf. cbn [bind].
  change (is_square "square") with true. cbv iota.
  rewrite H. cbn [bind].
  destruct x; try discriminate; cbn [math_sin bind]; destruct (gt0 _);
    apply store_h_returns; lia.
Qed.

(** The sawtooth branch has no call of [math.sin]. *)
Lemma sawtooth_sample_any_libm l1 l2 f d decay rate a i :
  sample l1 f d "sawtooth" decay rate a i = sample l2 f d "sawtooth" decay rate a i.
Proof. reflexivity. Qed.

(** Without decay the duration has no part in the loop body. *)
Lemma undecayed_sample_any_duration l f d1 d2 shape rate a i :
  sample l f d1 shape false rate a i = sample l f d2 shape false rate a i.
Proof. reflexivity. Qed.

Lemma default_shape_sample l f d shape decay rate a i :
  is_square shape = false -> is_sawtooth shape = false ->
  sample l f d shape decay rate a i = sample l f d "sine" decay rate a i.
Proof. intros Hq Hw. unfold sample. rewrite Hq, Hw. reflexivity. Qed.

Lemma sawtooth_buffer_any_libm l1 l2 f d v decay rate :
  _make_sound l1 f d v "sawtooth" decay rate =
  _make_sound l2 f d v "sawtooth" decay rate.
Proof.
  unfold _make_sound.
  destruct (n_samples_of d rate) as [n| |]; try reflexivity. cbn [bind].
  destruct (allocate n) as [zeros| |]; try reflexivity. cbn [bind].
  destruct (max_amp_of v) as [a| |]; try reflexivity.
  cbn [bind]. apply fill_ext. intros j _. apply sawtooth_sample_any_libm.
Qed.

Section ShapeFacts.

Variable libm_sin : float -> float.

(** X19.  A shape that is neither ['square'] nor ['sawtooth'] is no error:
    it gives what ['sine'] gives, buffer or exception. *)
Theorem unknown_shape_is_sine
  (freq : Z) (duration volume : float) (shape : String.string) (decay : bool)
  (sample_rate : Z) :
  is_square shape = false -> is_sawtooth shape = false ->
  _make_sound libm_sin freq duration volume shape decay sample_rate =
  _make_sound libm_sin freq duration volume "sine" decay sample_rate.
Proof.
  intros Hq Hw. unfold _make_sound.
  destruct (n_samples_of duration sample_rate) as [n| |]; try reflexivity.
  cbn [bind].
  destruct (allocate n) as [zeros| |]; try reflexivity. cbn [bind].
  destruct (max_amp_of volume) as [a| |]; try reflexivity.
  cbn [bind]. apply fill_ext. intros j _.
  apply default_shape_sample; assumption.
Qed.

(** X20.  Without decay a tone is a prefix of every longer tone of the same
    frequency, volume, shape and rate: when the longer buffer is returned
    and the count of the shorter tone is not below [-2 ** 63], so that its
    buffer, which is no larger, can be allocated as well, the shorter one is
    returned too, with the same samples. *)
Theorem undecayed_tones_share_a_prefix
  (freq : Z) (shorter longer volume : float) (shape : String.string)
  (sample_rate n : Z) (buf : list Z) :
  _make_sound libm_sin freq longer volume shape false sample_rate = Returns buf ->
  n_samples_of shorter sample_rate = Returns n ->
  - 2 ^ 63 <= n ->
  (Z.to_nat n <= length buf)%nat ->
  _make_sound libm_sin freq shorter volume shape false sample_rate =
    Returns (firstn (Z.to_nat n) buf).
Proof.
  intros H Hn Hfit Hle. apply make_sound_returns in H.
  destruct H as (m & a & _ & Hm & Ha & H).
  rewrite (fill_length _ _ _ _ _ _ _ _ _ _ H) in Hle.
  apply (make_sound_from_loop _ _ _ _ _ _ _ n a); [exact Hn| |exact Ha|].
  - revert Hm. index_bounds. lia.
  - rewrite (fill_ext libm_sin libm_sin freq freq shorter longer shape shape
               false false sample_rate sample_rate a a (Z.to_nat n) 0).
    + apply (fill_prefix _ _ _ _ _ _ _ (Z.to_nat m)); [exact Hle | exact H].
    + intros j _. apply undecayed_sample_any_duration.
Qed.

(** X21.  The sawtooth never calls [math.sin]: what [_make_sound] gives
    for it, buffer or exception, is the same under every sine. *)
Theorem sawtooth_ignores_the_sine
  (other_sin : float -> float)
  (freq : Z) (duration volume : float) (decay : bool) (sample_rate : Z) :
  _make_sound libm_sin freq duration volume "sawtooth" decay sample_rate =
  _make_sound other_sin freq duration volume "sawtooth" decay sample_rate.
Proof.
  destruct decay; apply sawtooth_buffer_any_libm.
Qed.

(** X22.  Arguments that are out of range end in an exception before the
    loop, in the order of the lines.  A rate too large for a double raises
    OverflowError.  A product [duration * sample_rate] that is infinite
    raises OverflowError in [round], one that is NaN raises ValueError; a
    NaN duration always ends in ValueError.  Once the count is there the
    allocation of the buffer comes first: a count outside the index range
    raises OverflowError and one above [PY_SSIZE_T_MAX / 8] raises
    MemoryError, whatever the volume.  Only when the buffer is allocated
    (the count is within these bounds and there is memory for it, which
    [allocate] takes for granted) does [int] raise for a product
    [32767 * volume] that is not finite: OverflowError for an infinity,
    ValueError for NaN. *)
Theorem non_finite_arguments_raise
  (freq : Z) (duration volume : float) (shape : String.string) (decay : bool)
  (sample_rate : Z) :
  (forall e, float_of_int sample_rate = Raises e ->
     _make_sound libm_sin freq duration volume shape decay sample_rate =
       Raises e) /\
  (forall sr, float_of_int sample_rate = Returns sr ->
     (is_finite (fmul duration sr) = false ->
        _make_sound libm_sin freq duration volume shape decay sample_rate =
          Raises (error_of (fmul duration sr))) /\
     (duration = S754_nan ->
        _make_sound libm_sin freq duration volume shape decay sample_rate =
          Raises ValueError) /\
     (forall n, py_round (fmul duration sr) = Returns n ->
        (n < - 2 ^ 63 \/ 2 ^ 63 <= n ->
           _make_sound libm_sin freq duration volume shape decay sample_rate =
             Raises OverflowError) /\
        (ssize_max / 8 < n < 2 ^ 63 ->
           _make_sound libm_sin freq duration volume shape decay sample_rate =
             Raises MemoryError) /\
        (forall zeros, allocate n = Returns zeros ->
           is_finite (fmul amp_scale volume) = false ->
           _make_sound libm_sin freq duration volume shape decay sample_rate =
             Raises (error_of (fmul amp_scale volume))))).
Proof.
  split.
  - intros e He. unfold _make_sound, n_samples_of. rewrite He. reflexivity.
  - intros sr Hsr.
    assert (Hfirst : is_finite (fmul duration sr) = false ->
      _make_sound libm_sin freq duration volume shape decay sample_rate =
        Raises (error_of (fmul duration sr))).
    { intros Hinf. unfold _make_sound, n_samples_of. rewrite Hsr. cbn [bind].
      rewrite (proj1 (not_finite_raises _ Hinf)). reflexivity. }
    split; [exact Hfirst|]. split.
    + intros ->. apply Hfirst. reflexivity.
    + intros n Hn.
      assert (Hns : n_samples_of duration sample_rate = Returns n).
      { unfold n_samples_of. rewrite Hsr. exact Hn. }
      split; [|split].
      * intros Hout. unfold _make_sound. rewrite Hns. cbn [bind].
        rewrite (allocate_outside n Hout). reflexivity.
      * intros Hbig. unfold _make_sound. rewrite Hns. cbn [bind].
        rewrite (allocate_too_large n Hbig). reflexivity.
      * intros zeros Hal Hinf. unfold _make_sound. rewrite Hns. cbn [bind].
        rewrite Hal. cbn [bind].
        assert (Hamp : max_amp_of volume =
                       Raises (error_of (fmul amp_scale volume)))
          by exact (proj2 (not_finite_raises _ Hinf)).
        rewrite Hamp. reflexivity.
Qed.

(** What the C standard asks of [sin] at the zeros and at NaN. *)
Hypothesis sin_zero : forall s, libm_sin (S754_zero s) = S754_zero s.
Hypothesis sin_nan : libm_sin S754_nan = S754_nan.

Lemma math_sin_keeps_zero_or_nan (x : float) :
  zero_or_nan x = true ->
  exists s, math_sin libm_sin x = Returns s /\ zero_or_nan s = true.
Proof.
  destruct x as [s|s| |s m e]; intros H; try discriminate; simpl.
  - rewrite sin_zero. eauto.
  - rewrite sin_nan. eauto.
Qed.

(** Index 0 of a shape other than the square: the time is 0, and so is
    the value, whenever one is stored. *)
Lemma smooth_sample0_value (freq : Z) (duration : float)
  (shape : String.string) (decay : bool) (sample_rate max_amp v : Z) :
  is_square shape = false ->
  sample libm_sin freq duration shape decay sample_rate max_amp 0 = Returns v ->
  v = 0.
Proof.
  unfold sample. rewrite float_of_int_0. cbn [bind]. intros Hq H.
  apply bind_returns in H. destruct H as [sr [_ H]].
  unbind H as t Ht.
  apply bind_returns in H. destruct H as [cf [_ H]].
  apply fdiv_zero_or_nan in Ht; [|reflexivity].
  unbind H as val Hval. apply store_h_value in H. subst v.
  rewrite Hq in Hval. destruct (is_sawtooth shape).
  - pose proof (fmul_zero_or_nan_l t cf Ht) as Hx.
    destruct (fmul t cf) as [s|s| |s m e]; try discriminate.
    assert (Hk : py_floor (fadd half (S754_zero s)) = Returns 0)
      by (destruct s; reflexivity).
    rewrite Hk in Hval. cbn [bind] in Hval.
    rewrite float_of_int_0 in Hval. cbn [bind] in Hval.
    apply bind_returns in Hval. destruct Hval as [two [_ Hval]].
    apply bind_returns in Hval. destruct Hval as [a [_ Hval]].
    apply py_int_zero_or_nan in Hval; [exact Hval|].
    apply fmul_zero_or_nan_r, fmul_zero_or_nan_r. destruct s; reflexivity.
  - rewrite phase_returns in Hval. cbn [bind] in Hval.
    destruct (math_sin_keeps_zero_or_nan
                (fmul (fmul (fmul (literal 2 0) pi) cf) t)
                (fmul_zero_or_nan_r _ t Ht)) as [s [Hs Hz]].
    rewrite Hs in Hval. cbn [bind] in Hval.
    apply bind_returns in Hval. destruct Hval as [a [_ Hval]].
    apply py_int_zero_or_nan in Hval; [exact Hval|].
    apply fmul_zero_or_nan_r, Hz.
Qed.

(** X23.  Every buffer of a shape other than the square (the sawtooth, the
    sine, and each name that falls back to the sine) starts with the
    sample 0, with or without decay. *)
Theorem smooth_shapes_start_at_zero
  (freq : Z) (duration volume : float) (shape : String.string) (decay : bool)
  (sample_rate first : Z) (rest : list Z) :
  is_square shape = false ->
  _make_sound libm_sin freq duration volume shape decay sample_rate =
    Returns (first :: rest) ->
  first = 0.
Proof.
  intros Hq H. apply make_sound_returns in H.
  destruct H as (n & a & _ & _ & _ & H).
  destruct (Z.to_nat n) as [|count]; [discriminate|].
  cbn [fill] in H. unbind H as v Hv.
  apply bind_returns in H. destruct H as [tl [_ H]].
  injection H as <- _.
  exact (smooth_sample0_value _ _ _ _ _ _ _ Hq Hv).
Qed.

End ShapeFacts.

(** *** The statements at sample arguments *)

Lemma buffer_length_and_width_witness :
  exists n, n_samples_of one_second 4 = Returns n /\
            length four_samples = Z.to_nat n /\
            Forall (fun v => -32768 <= v <= 32767) four_samples.
Proof.
  exact (buffer_length_and_width small_angle_sin 1 one_second half "sawtooth"
           false 4 four_samples ltac:(vm_compute; reflexivity)).
Defined.

Lemma square_buffer_is_two_valued_witness :
  exists max_amp, max_amp_of half = Returns max_amp /\
                  Forall (fun v => v = max_amp \/ v = - max_amp)
                    [-16383; 16383; 16383; 16383].
Proof.
  exact (square_buffer_is_two_valued small_angle_sin 1 one_second half false 4
           [-16383; 16383; 16383; 16383] ltac:(vm_compute; reflexivity)).
Defined.

Lemma zero_volume_is_silence_witness :
  max_amp_of (S754_zero false) = Returns 0 /\
  Forall (fun v => v = 0) [0; 0; 0; 0].
Proof.
  exact (zero_volume_is_silence small_angle_sin 1 one_second (S754_zero false)
           "sawtooth" false 4 [0; 0; 0; 0] eq_refl
           ltac:(vm_compute; reflexivity)).
Defined.

Lemma unknown_shape_is_sine_witness :
  _make_sound small_angle_sin 1 one_second (literal 1 (-3)) "triangle" false 4 =
  _make_sound small_angle_sin 1 one_second (literal 1 (-3)) "sine" false 4.
Proof.
  exact (unknown_shape_is_sine small_angle_sin 1 one_second (literal 1 (-3))
           "triangle" false 4 eq_refl eq_refl).
Defined.

Lemma undecayed_tones_share_a_prefix_witness :
  _make_sound small_angle_sin 1 half half "sawtooth" false 4 = Returns [0; 8191].
Proof.
  exact (undecayed_tones_share_a_prefix small_angle_sin 1 half one_second half
           "sawtooth" 4 2 four_samples ltac:(vm_compute; reflexivity)
           ltac:(vm_compute; reflexivity) ltac:(index_bounds; lia)
           ltac:(vm_compute; lia)).
Defined.

Lemma non_finite_arguments_raise_witness :
  _make_sound small_angle_sin 1200 eat_duration eat_volume "square" false
    (2 ^ 1024) = Raises OverflowError /\
  _make_sound small_angle_sin 1200 huge_negative eat_volume "square" false
    mixer_rate = Raises OverflowError /\
  _make_sound small_angle_sin 1200 S754_nan eat_volume "square" false
    mixer_rate = Raises ValueError /\
  _make_sound small_angle_sin 1200 minus_1e30 S754_nan "square" false
    mixer_rate = Raises OverflowError /\
  _make_sound small_angle_sin 1200 (literal 1 62) S754_nan "square" false
    1 = Raises MemoryError /\
  _make_sound small_angle_sin 1200 eat_duration S754_nan "square" false
    mixer_rate = Raises ValueError.
Proof.
  split; [|split; [|split; [|split; [|split]]]].
  - exact (proj1 (non_finite_arguments_raise small_angle_sin 1200 eat_duration
                    eat_volume "square" false (2 ^ 1024))
             OverflowError ltac:(vm_compute; reflexivity)).
  - destruct (proj2 (non_finite_arguments_raise small_angle_sin 1200
                       huge_negative eat_volume "square" false mixer_rate)
                (literal 44100 0) ltac:(vm_compute; reflexivity)) as [H _].
    exact (H ltac:(vm_compute; reflexivity)).
  - destruct (proj2 (non_finite_arguments_raise small_angle_sin 1200
                       S754_nan eat_volume "square" false mixer_rate)
                (literal 44100 0) ltac:(vm_compute; reflexivity)) as [_ [H _]].
    exact (H eq_refl).
  - destruct (proj2 (non_finite_arguments_raise small_angle_sin 1200
                       minus_1e30 S754_nan "square" false mixer_rate)
                (literal 44100 0) ltac:(vm_compute; reflexivity)) as [_ [_ H]].
    destruct (H (-44100000000000004113874187557273600)
                ltac:(vm_compute; reflexivity)) as [Hout _].
    exact (Hout ltac:(left; index_bounds; lia)).
  - destruct (proj2 (non_finite_arguments_raise small_angle_sin 1200
                       (literal 1 62) S754_nan "square" false 1)
                (literal 1 0) ltac:(vm_compute; reflexivity)) as [_ [_ H]].
    destruct (H (2 ^ 62) ltac:(vm_compute; reflexivity)) as [_ [Hbig _]].
    exact (Hbig ltac:(index_bounds; change (2 ^ 62) with 4611686018427387904; lia)).
  - destruct (proj2 (non_finite_arguments_raise small_angle_sin 1200
                       eat_duration S754_nan "square" false mixer_rate)
                (literal 44100 0) ltac:(vm_compute; reflexivity)) as [_ [_ H]].
    destruct (H 2205 ltac:(vm_compute; reflexivity)) as [_ [_ Hvol]].
    exact (Hvol (repeat 0 (Z.to_nat 2205)) ltac:(vm_compute; reflexivity)
             ltac:(vm_compute; reflexivity)).
Defined.

Lemma smooth_shapes_start_at_zero_witness :
  _make_sound small_angle_sin 1 one_second half "sawtooth" true 4 =
    Returns [0; 6143; 8191; 6143] /\
  0 = 0.
Proof.
  assert (H : _make_sound small_angle_sin 1 one_second half "sawtooth" true 4 =
              Returns [0; 6143; 8191; 6143]) by (vm_compute; reflexivity).
  split; [exact H|].
  exact (smooth_shapes_start_at_zero small_angle_sin (fun s => eq_refl) eq_refl
           1 one_second half "sawtooth" true 4 0 [6143; 8191; 6143] eq_refl H).
Defined.

(** ** The two effects of the game *)

Lemma eat_effect_counts :
  n_samples_of eat_duration mixer_rate = Returns 2205 /\
  max_amp_of eat_volume = Returns 13106.
Proof. split; vm_compute; reflexivity. Qed.

Lemma death_effect_count :
  n_samples_of death_duration mixer_rate = Returns 22050.
Proof. vm_compute. reflexivity. Qed.

(** The phase of the eat effect is finite at each of its 2205 indices. *)
Lemma eat_phases_accepted :
  at_each_index (phase_at 1200 eat_duration false mixer_rate) not_infinity
    0 (Z.to_nat 2205) = true.
Proof. vm_compute. reflexivity. Qed.

(** The constructor once the eat effect is there; the death effect does
    not see the sine. *)
Lemma init_after_eat l l' (rate : Z) (eat : list Z) :
  _make_sound l 1200 eat_duration eat_volume "square" false rate = Returns eat ->
  __init__ l rate =
    (death <- _make_sound l' 400 death_duration death_volume "sawtooth" true
                rate ;;
     Returns (mkSounds eat death)).
Proof.
  intros He. unfold __init__. rewrite He. cbn [bind].
  rewrite (sawtooth_buffer_any_libm l l'). reflexivity.
Qed.

(** The loop of the eat effect under every sine: 2205 samples, each the
    peak or its negative. *)
Lemma eat_loop_returns (libm_sin : float -> float) :
  exists buf,
    fill libm_sin 1200 eat_duration "square" false mixer_rate 13106 0
      (Z.to_nat 2205) = Returns buf /\
    length buf = Z.to_nat 2205 /\
    Forall (fun v => v = 13106 \/ v = -13106) buf.
Proof.
  apply fill_total. intros j Hj.
  destruct (at_each_index_spec _ _ _ _ eat_phases_accepted j Hj)
    as [x [Hx Hok]].
  rewrite (square_sample_of_phase libm_sin _ _ _ _ 13106 j x Hx Hok
             ltac:(lia)).
  eexists. split; [reflexivity|]. destruct (gt0 _); auto.
Qed.

(** X24.  When the mixer reports the 44100 Hz it is asked for, the eat
    effect is built whatever the sine of the C library returns: 2205
    samples, each 13106 or -13106.  The constructor then ends as the
    synthesis of the death effect ends, which is the same under every
    sine; and a sound manager that is constructed holds that eat effect and
    a death effect of 22050 samples. *)
Theorem eat_effect_is_always_built (libm_sin other_sin : float -> float) :
  exists eat,
    _make_sound libm_sin 1200 eat_duration eat_volume "square" false mixer_rate =
      Returns eat /\
    length eat = Z.to_nat 2205 /\
    Forall (fun v => v = 13106 \/ v = -13106) eat /\
    __init__ libm_sin mixer_rate =
      (death <- _make_sound other_sin 400 death_duration death_volume
                  "sawtooth" true mixer_rate ;;
       Returns (mkSounds eat death)) /\
    (forall s, __init__ libm_sin mixer_rate = Returns s ->
       eat_sound s = eat /\ length (death_sound s) = Z.to_nat 22050).
Proof.
  destruct (eat_loop_returns libm_sin) as [eat [Heat [Hel Hev]]].
  pose proof (make_sound_from_loop _ _ _ _ _ _ _ _ _ _
                (proj1 eat_effect_counts) ltac:(index_bounds; lia)
                (proj2 eat_effect_counts) Heat) as He.
  exists eat. split; [exact He|]. split; [exact Hel|]. split; [exact Hev|].
  split; [exact (init_after_eat libm_sin other_sin mixer_rate eat He)|].
  intros s Hs. rewrite (init_after_eat libm_sin libm_sin mixer_rate eat He) in Hs.
  unbind Hs as death Hd. injection Hs as <-. split; [reflexivity|].
  destruct (make_sound_length _ _ _ _ _ _ _ _ Hd) as [n [Hn Hlen]].
  rewrite death_effect_count in Hn. injection Hn as <-. exact Hlen.
Qed.
